(** * A model of [visionAPI.py]

    The script sends one image to a remote annotation service six times
    (labels, web entities, faces, logos, text, objects) and prints one
    report section per answer.  This file embeds the script in Rocq and
    proves properties of its report functions and of [annotate].

    Conventions of the embedding:
    - Python [str] values are [string]s (byte strings, UTF-8); the only
      string tests of the script compare against ASCII literals.
    - Python [int] values are [Z]; Python [float] values are IEEE 754
      binary64 numbers, [spec_float] with precision 53 and [emax] 1024.
    - Standard output, file opening and the remote calls are recorded as
      a chronological list of events; a raised exception keeps the events
      that happened before it.
    - Building the client and writing to standard output are taken to
      succeed; a failure of the client library shows as the exception of
      a request. *)

From Stdlib Require Import ZArith List String Ascii Bool Lia.
From Stdlib Require Import Floats.SpecFloat DecimalString Strings.Byte.
Import ListNotations.
Local Open Scope string_scope.
Local Open Scope Z_scope.

(** ** Python values and builtins used by the script *)

(** The newline character of the literals ['\nObjects:'] and friends. *)
Definition nl : string := String (ascii_of_nat 10) EmptyString.

(** The double quote of the literal ['\n"{}"']. *)
Definition dquote : string := String (ascii_of_nat 34) EmptyString.

(** [str(n)] for an [int]. *)
Definition str_of_Z (z : Z) : string := NilZero.string_of_int (Z.to_int z).

(** [s * n] for a [str] and a non-negative count. *)
Fixpoint str_mul (s : string) (n : nat) : string :=
  match n with
  | O => EmptyString
  | S k => s ++ str_mul s k
  end.

(** [s.startswith(p)]. *)
Definition startswith (s p : string) : bool := String.prefix p s.

(** [sep.join(xs)]. *)
Definition join (sep : string) (xs : list string) : string :=
  String.concat sep xs.

(** Truth value of a [str] or of a sequence: non-empty. *)
Definition str_truthy (s : string) : bool :=
  match s with
  | EmptyString => false
  | String _ _ => true
  end.

Definition list_truthy {A : Type} (xs : list A) : bool :=
  match xs with
  | [] => false
  | _ :: _ => true
  end.

(** *** Floats *)

Definition float : Type := spec_float.

Definition prec : Z := 53.
Definition emax : Z := 1024.

(** [x * y] on floats, rounded to nearest, ties to even. *)
Definition float_mul (x y : float) : float := SFmul prec emax x y.

(** [x / y] on floats. *)
Definition float_div (x y : float) : float := SFdiv prec emax x y.

(** The float of an integer literal such as [100.]. *)
Definition float_of_Z (z : Z) : float := binary_normalize prec emax z 0 false.

(** The literal [100.]. *)
Definition hundred : float := Eval cbv in float_of_Z 100.

(** A float that prints digits: neither [nan] nor an infinity. *)
Definition float_finite (x : float) : bool :=
  match x with
  | S754_zero _ | S754_finite _ _ _ => true
  | S754_infinity _ | S754_nan => false
  end.

(** Nearest integer to [n / d] for [0 < d], ties to the even one. *)
Definition round_half_even_div (n d : Z) : Z :=
  let q := n / d in
  let r := n mod d in
  match 2 * r ?= d with
  | Lt => q
  | Gt => q + 1
  | Eq => if Z.even q then q else q + 1
  end.

(** The magnitude [m * 2^e], in hundredths, correctly rounded. *)
Definition hundredths (m : positive) (e : Z) : Z :=
  if 0 <=? e then Z.pos m * 2 ^ e * 100
  else round_half_even_div (Z.pos m * 100) (2 ^ (- e)).

Definition digit (d : Z) : ascii := ascii_of_nat (48 + Z.to_nat d).

Definition two_digits (n : Z) : string :=
  String (digit (n / 10)) (String (digit (n mod 10)) EmptyString).

(** A count of hundredths as [<integer part>.<two digits>]. *)
Definition fixed2 (h : Z) : string :=
  str_of_Z (h / 100) ++ "." ++ two_digits (h mod 100).

Definition sign_str (s : bool) : string := if s then "-" else EmptyString.

(** [format(x, '.2f')]: fixed notation with two digits after the point,
    the exact binary value rounded to nearest, ties to even; [nan] and
    the infinities print as words. *)
Definition format_2f (x : float) : string :=
  match x with
  | S754_nan => "nan"
  | S754_infinity s => sign_str s ++ "inf"
  | S754_zero s => sign_str s ++ "0.00"
  | S754_finite s m e => sign_str s ++ fixed2 (hundredths m e)
  end.

(** ** Exceptions, events and the effect monad *)

Inductive exn : Type :=
| Exception (msg : string)      (* [raise Exception(...)] of the reports *)
| IndexError (msg : string)     (* tuple index out of range *)
| OSError (path : string)       (* [io.open] could not open the file *)
| ClientError (msg : string).   (* failure raised by the client library *)

Inductive result (A : Type) : Type :=
| Ok (a : A)
| Raise (e : exn).
Arguments Ok {A} a.
Arguments Raise {A} e.

(** The six annotation requests, named after the sections of the script. *)
Inductive category : Type :=
| Labels | Web | Faces | Logos | Text | Objects.

(** The request payload built by lines 26-32. *)
Inductive Image : Type :=
| ImageUri (image_uri : string)          (* [image.source.image_uri = path] *)
| ImageContent (content : list byte).    (* [types.Image(content=content)] *)

Inductive event : Type :=
| ENewClient                              (* [vision.ImageAnnotatorClient()] *)
| EOpen (path : string)                   (* [io.open(path, 'rb')] *)
| ECall (c : category) (image : Image)    (* one request to the service *)
| EPrint (s : string).                    (* [print(s)] *)

Definition trace : Type := list event.

(** A computation reads the events so far and returns them extended,
    with a value or the exception that stopped it. *)
Definition M (A : Type) : Type := trace -> trace * result A.

Definition ret {A : Type} (a : A) : M A := fun t => (t, Ok a).

Definition raise {A : Type} (e : exn) : M A := fun t => (t, Raise e).

Definition bind {A B : Type} (m : M A) (k : A -> M B) : M B :=
  fun t =>
    match m t with
    | (t', Ok a) => k a t'
    | (t', Raise e) => (t', Raise e)
    end.

Notation "x <- m ;; k" := (bind m (fun x => k))
  (at level 61, m at next level, right associativity).
Notation "m ;; k" := (bind m (fun _ => k))
  (at level 61, right associativity).

Definition emit (e : event) : M unit := fun t => ((t ++ [e])%list, Ok tt).

Definition print (s : string) : M unit := emit (EPrint s).

(** A value that may be an exception, as a computation. *)
Definition lift {A : Type} (r : result A) : M A :=
  match r with
  | Ok a => ret a
  | Raise e => raise e
  end.

(** [for x in xs: body(x)]. *)
Fixpoint for_each {A : Type} (xs : list A) (body : A -> M unit) : M unit :=
  match xs with
  | [] => ret tt
  | x :: rest => body x ;; for_each rest body
  end.

(** The text that reaches standard output: each [print] writes its
    argument and a newline. *)
Fixpoint stdout (t : trace) : string :=
  match t with
  | [] => EmptyString
  | EPrint s :: rest => s ++ nl ++ stdout rest
  | _ :: rest => stdout rest
  end.

(** The requests issued, in order. *)
Fixpoint calls (t : trace) : list (category * Image) :=
  match t with
  | [] => []
  | ECall c i :: rest => (c, i) :: calls rest
  | _ :: rest => calls rest
  end.

(** The files opened, in order. *)
Fixpoint opens (t : trace) : list string :=
  match t with
  | [] => []
  | EOpen p :: rest => p :: opens rest
  | _ :: rest => opens rest
  end.

(** [t[i]] on a tuple: a negative index counts from the end. *)
Definition tuple_getitem (t : list string) (i : Z) : result string :=
  let n := Z.of_nat (List.length t) in
  let j := if i <? 0 then i + n else i in
  if (j <? 0) || (n <=? j) then Raise (IndexError "tuple index out of range")
  else match nth_error t (Z.to_nat j) with
       | Some x => Ok x
       | None => Raise (IndexError "tuple index out of range")
       end.

(** ** The service's messages *)

Record Vertex : Type := { vertex_x : Z; vertex_y : Z }.

Record NormalizedVertex : Type := { nvertex_x : float; nvertex_y : float }.

Record BoundingPoly : Type := {
  vertices : list Vertex;
  normalized_vertices : list NormalizedVertex
}.

(** Labels, logos and texts are all entity annotations. *)
Record EntityAnnotation : Type := {
  description : string;
  score : float;
  bounding_poly : BoundingPoly
}.

Record FaceAnnotation : Type := {
  anger_likelihood : Z;
  joy_likelihood : Z;
  surprise_likelihood : Z;
  face_bounding_poly : BoundingPoly
}.

Record LocalizedObjectAnnotation : Type := {
  name : string;
  object_score : float;
  object_bounding_poly : BoundingPoly
}.

Record WebImage : Type := { image_url : string }.

Record WebPage : Type := { page_url : string }.

Record WebEntity : Type := {
  entity_score : float;
  entity_description : string
}.

Record WebDetection : Type := {
  pages_with_matching_images : list WebPage;
  full_matching_images : list WebImage;
  partial_matching_images : list WebImage;
  web_entities : list WebEntity
}.

(** [response.error]. *)
Record Status : Type := { message : string }.

(** Every request answers with the same message type; each report reads
    its own fields of it. *)
Record AnnotateImageResponse : Type := {
  label_annotations : list EntityAnnotation;
  web_detection : WebDetection;
  face_annotations : list FaceAnnotation;
  logo_annotations : list EntityAnnotation;
  text_annotations : list EntityAnnotation;
  localized_object_annotations : list LocalizedObjectAnnotation;
  error : Status
}.

(** The same response with another error descriptor. *)
Definition with_error (r : AnnotateImageResponse) (e : Status)
  : AnnotateImageResponse :=
  {| label_annotations := label_annotations r;
     web_detection := web_detection r;
     face_annotations := face_annotations r;
     logo_annotations := logo_annotations r;
     text_annotations := text_annotations r;
     localized_object_annotations := localized_object_annotations r;
     error := e |}.

(** The same web annotations with other matching pages. *)
Definition with_pages (a : WebDetection) (pages : list WebPage)
  : WebDetection :=
  {| pages_with_matching_images := pages;
     full_matching_images := full_matching_images a;
     partial_matching_images := partial_matching_images a;
     web_entities := web_entities a |}.

(** ** The report functions *)

Definition separator : string := str_mul "=" 79.

(** The message of the exception raised on a service-reported error. *)
Definition error_text (msg : string) : string :=
  msg ++ nl ++ "For more info on error messages, check: "
      ++ "https://cloud.google.com/apis/design/errors".

(** Lines 78-82, 91-95 and 111-115. *)
Definition check_error (response : AnnotateImageResponse) : M unit :=
  if str_truthy (message (error response))
  then raise (Exception (error_text (message (error response))))
  else ret tt.

(** ['({},{})'.format(vertex.x, vertex.y)]. *)
Definition vertex_str (vertex : Vertex) : string :=
  "(" ++ str_of_Z (vertex_x vertex) ++ "," ++ str_of_Z (vertex_y vertex) ++ ")".

Definition text_report (response : AnnotateImageResponse) : M unit :=
  print (nl ++ "Texts:") ;;
  print separator ;;
  for_each (text_annotations response) (fun text =>
    print (nl ++ dquote ++ description text ++ dquote) ;;
    print ("bounds: "
           ++ join "," (map vertex_str (vertices (bounding_poly text))))) ;;
  check_error response.

Definition logo_report (response : AnnotateImageResponse) : M unit :=
  print (nl ++ "Logos:") ;;
  print separator ;;
  for_each (logo_annotations response) (fun logo =>
    print (description logo)) ;;
  check_error response.

(** Names of likelihood from google.cloud.vision.enums. *)
Definition likelihood_name : list string :=
  ["UNKNOWN"; "VERY_UNLIKELY"; "UNLIKELY"; "POSSIBLE"; "LIKELY"; "VERY_LIKELY"].

Definition face_report (response : AnnotateImageResponse) : M unit :=
  print (nl ++ "Faces:") ;;
  print separator ;;
  for_each (face_annotations response) (fun face =>
    anger <- lift (tuple_getitem likelihood_name (anger_likelihood face)) ;;
    print ("anger: " ++ anger) ;;
    joy <- lift (tuple_getitem likelihood_name (joy_likelihood face)) ;;
    print ("joy: " ++ joy) ;;
    surprise <- lift (tuple_getitem likelihood_name (surprise_likelihood face)) ;;
    print ("surprise: " ++ surprise) ;;
    print ("face bounds: "
           ++ join "," (map vertex_str (vertices (face_bounding_poly face))))) ;;
  check_error response.

Definition labels_report (response : AnnotateImageResponse) : M unit :=
  print (nl ++ "Labels (and confidence score):") ;;
  print separator ;;
  for_each (label_annotations response) (fun label =>
    print (description label ++ " ("
           ++ format_2f (float_mul (score label) hundred) ++ "%)")).

Section Script.

(** [str(x)] for a float, as ['{}'.format(x)] prints it: the shortest
    decimal text that reads back as [x].  It belongs to the language, not
    to the script, and is taken as given. *)
Variable float_str : float -> string.

Definition object_report (objects : list LocalizedObjectAnnotation) : M unit :=
  print (nl ++ "Objects:") ;;
  print separator ;;
  print ("Number of objects found: "
         ++ str_of_Z (Z.of_nat (List.length objects))) ;;
  for_each objects (fun object_ =>
    print (nl ++ name object_ ++ " (confidence: "
           ++ float_str (object_score object_) ++ ")") ;;
    print "Normalized bounding polygon vertices: " ;;
    for_each (normalized_vertices (object_bounding_poly object_))
      (fun vertex =>
         print (" - (" ++ float_str (nvertex_x vertex) ++ ", "
                ++ float_str (nvertex_y vertex) ++ ")"))).

(** One of the three url blocks of [web_report], lines 127-143: nothing
    for an empty collection, else a count line and a line per url. *)
Definition pages_block (pages : list WebPage) : M unit :=
  if list_truthy pages then
    print (nl ++ str_of_Z (Z.of_nat (List.length pages))
           ++ " Pages with matching images retrieved") ;;
    for_each pages (fun page => print ("Url   : " ++ page_url page))
  else ret tt.

Definition web_report (annotations : WebDetection) : M unit :=
  print (nl ++ "Web entities (and relevancy score):") ;;
  print separator ;;
  pages_block (pages_with_matching_images annotations) ;;
  (if list_truthy (full_matching_images annotations) then
     print (nl ++ str_of_Z (Z.of_nat
                     (List.length (full_matching_images annotations)))
            ++ " Full Matches found: ") ;;
     for_each (full_matching_images annotations) (fun image =>
       print ("Url  : " ++ image_url image))
   else ret tt) ;;
  (if list_truthy (partial_matching_images annotations) then
     print (nl ++ str_of_Z (Z.of_nat
                     (List.length (partial_matching_images annotations)))
            ++ " Partial Matches found: ") ;;
     for_each (partial_matching_images annotations) (fun image =>
       print ("Url  : " ++ image_url image))
   else ret tt) ;;
  (if list_truthy (web_entities annotations) then
     print (nl ++ str_of_Z (Z.of_nat (List.length (web_entities annotations)))
            ++ " Web entities found: ") ;;
     for_each (web_entities annotations) (fun entity =>
       print ("Score      : " ++ float_str (entity_score entity)) ;;
       print ("Description: " ++ entity_description entity))
   else ret tt).

(** ** The world around the script and [annotate] *)

(** What the script cannot decide: which paths open, with which bytes,
    and what the service answers to each request (a response, or an
    exception of the client library). *)
Record World : Type := {
  read_file : string -> option (list byte);
  request : category -> Image -> result AnnotateImageResponse
}.

(** [with io.open(path, 'rb') as image_file: content = image_file.read()]. *)
Definition io_open_read (w : World) (path : string) : M (list byte) :=
  emit (EOpen path) ;;
  match read_file w path with
  | Some content => ret content
  | None => raise (OSError path)
  end.

(** One request: [client.label_detection(image=image)] and the like. *)
Definition call (w : World) (c : category) (image : Image)
  : M AnnotateImageResponse :=
  emit (ECall c image) ;;
  lift (request w c image).

(** The test of line 26. *)
Definition is_remote (path : string) : bool :=
  startswith path "http" || startswith path "gs:".

(** Lines 26-32: the payload of all six requests. *)
Definition load_image (w : World) (path : string) : M Image :=
  if is_remote path then ret (ImageUri path)
  else content <- io_open_read w path ;; ret (ImageContent content).

(** The report of each category, on the part of the response that
    [annotate] hands to it. *)
Definition report (c : category) (response : AnnotateImageResponse) : M unit :=
  match c with
  | Labels => labels_report response
  | Web => web_report (web_detection response)
  | Faces => face_report response
  | Logos => logo_report response
  | Text => text_report response
  | Objects => object_report (localized_object_annotations response)
  end.

Definition annotate (w : World) (path : string) : M unit :=
  emit ENewClient ;;
  image <- load_image w path ;;
  (* LABELS *)
  labels_response <- call w Labels image ;;
  labels_report labels_response ;;
  (* WEB ENTITIES *)
  web_response <- (r <- call w Web image ;; ret (web_detection r)) ;;
  web_report web_response ;;
  (* FACE *)
  face_response <- call w Faces image ;;
  face_report face_response ;;
  (* LOGO *)
  logo_response <- call w Logos image ;;
  logo_report logo_response ;;
  (* TEXT *)
  text_response <- call w Text image ;;
  text_report text_response ;;
  (* OBJECTS *)
  object_response <- (r <- call w Objects image ;;
                      ret (localized_object_annotations r)) ;;
  object_report object_response.

End Script.

(** ** Sample values *)

Definition no_poly : BoundingPoly :=
  {| vertices := []; normalized_vertices := [] |}.

Definition square : BoundingPoly :=
  {| vertices := [ {| vertex_x := 1; vertex_y := 2 |};
                   {| vertex_x := 30; vertex_y := 2 |};
                   {| vertex_x := 30; vertex_y := 40 |};
                   {| vertex_x := 1; vertex_y := 40 |} ];
     normalized_vertices := [] |}.

Definition no_web : WebDetection :=
  {| pages_with_matching_images := []; full_matching_images := [];
     partial_matching_images := []; web_entities := [] |}.

Definition empty_response : AnnotateImageResponse :=
  {| label_annotations := []; web_detection := no_web;
     face_annotations := []; logo_annotations := [];
     text_annotations := []; localized_object_annotations := [];
     error := {| message := EmptyString |} |}.

Definition with_faces (r : AnnotateImageResponse) (fs : list FaceAnnotation)
  : AnnotateImageResponse :=
  {| label_annotations := label_annotations r;
     web_detection := web_detection r;
     face_annotations := fs;
     logo_annotations := logo_annotations r;
     text_annotations := text_annotations r;
     localized_object_annotations := localized_object_annotations r;
     error := error r |}.

Definition face_of (a j s : Z) : FaceAnnotation :=
  {| anger_likelihood := a; joy_likelihood := j; surprise_likelihood := s;
     face_bounding_poly := square |}.

(** The float nearest to 0.8765, the literal [0.8765]. *)
Definition score_08765 : float :=
  Eval cbv in float_div (float_of_Z 8765) (float_of_Z 10000).

Definition label_of (d : string) (s : float) : EntityAnnotation :=
  {| description := d; score := s; bounding_poly := no_poly |}.

(** A stand-in for [str] on floats, to run the script on sample values. *)
Definition sample_float_str (x : float) : string := format_2f x.

(** A world where every path opens on two bytes and the service answers
    every request with an empty response. *)
Definition quiet_world : World :=
  {| read_file := fun _ => Some [x00; x01]%byte;
     request := fun _ _ => Ok empty_response |}.

(** The same world, except that the answer to the face request carries
    an error message. *)
Definition face_error_world : World :=
  {| read_file := fun _ => Some [x00; x01]%byte;
     request := fun c _ =>
       match c with
       | Faces => Ok (with_error empty_response {| message := "boom" |})
       | _ => Ok empty_response
       end |}.

(** A world without any file. *)
Definition empty_disk_world : World :=
  {| read_file := fun _ => None;
     request := fun _ _ => Ok empty_response |}.

(** ** Vocabulary of the statements *)

(** What a computation appends and how it ends, when started on an
    empty trace. *)
Definition written {A : Type} (m : M A) : trace := fst (m []).

Definition outcome {A : Type} (m : M A) : result A := snd (m []).

(** The text a computation sends to standard output when started after
    the events [t]. *)
Definition text_written {A : Type} (m : M A) (t : trace) : string :=
  stdout (skipn (List.length t) (fst (m t))).

(** [m] appends exactly [out] and ends with [res], whatever came before. *)
Definition runs {A : Type} (m : M A) (out : trace) (res : result A) : Prop :=
  forall t, m t = ((t ++ out)%list, res).

(** [m] only prints: it appends the lines [lines] and ends with [res]. *)
Definition prints {A : Type} (m : M A) (lines : list string) (res : result A)
  : Prop :=
  runs m (map EPrint lines) res.

(** [m] does nothing but print, and prints the same whatever came
    before. *)
Definition printer {A : Type} (m : M A) : Prop :=
  exists lines res, prints m lines res.

(** The order of the sections in [annotate]. *)
Definition all_categories : list category :=
  [Labels; Web; Faces; Logos; Text; Objects].

(** "Call the service once per category, each call followed at once by
    that category's report": the sections of [annotate] as a loop. *)
Fixpoint run_sections (float_str : float -> string) (w : World)
    (image : Image) (cs : list category) : M unit :=
  match cs with
  | [] => ret tt
  | c :: rest =>
      response <- call w c image ;;
      report float_str c response ;;
      run_sections float_str w image rest
  end.

(** An ordinal that indexes the six-entry table: [0..5], or [-6..-1]
    counted from the end. *)
Definition valid_index (i : Z) : bool := (-6 <=? i) && (i <? 6).

(** An ordinal of the likelihood enumeration. *)
Definition in_enum (i : Z) : bool := (0 <=? i) && (i <=? 5).

Definition face_valid (face : FaceAnnotation) : bool :=
  valid_index (anger_likelihood face)
  && valid_index (joy_likelihood face)
  && valid_index (surprise_likelihood face).

Definition face_in_enum (face : FaceAnnotation) : bool :=
  in_enum (anger_likelihood face)
  && in_enum (joy_likelihood face)
  && in_enum (surprise_likelihood face).

(** The table entry an indexing ordinal selects. *)
Definition likelihood_label (i : Z) : string :=
  nth (Z.to_nat (i mod 6)) likelihood_name EmptyString.

(** The lines of one record in each section that checks the error field. *)
Definition face_lines (face : FaceAnnotation) : list string :=
  [ "anger: " ++ likelihood_label (anger_likelihood face);
    "joy: " ++ likelihood_label (joy_likelihood face);
    "surprise: " ++ likelihood_label (surprise_likelihood face);
    "face bounds: "
      ++ join "," (map vertex_str (vertices (face_bounding_poly face))) ].

Definition logo_lines (logo : EntityAnnotation) : list string :=
  [ description logo ].

Definition text_lines (text : EntityAnnotation) : list string :=
  [ nl ++ dquote ++ description text ++ dquote;
    "bounds: " ++ join "," (map vertex_str (vertices (bounding_poly text))) ].

(** The "Pages with matching images" block as the spec words it. *)
Definition pages_lines (pages : list WebPage) : list string :=
  match pages with
  | [] => []
  | _ :: _ =>
      (nl ++ str_of_Z (Z.of_nat (List.length pages))
          ++ " Pages with matching images retrieved")
      :: map (fun page => "Url   : " ++ page_url page) pages
  end.

(** The blocks of the web section after the matching pages: full
    matches, partial matches and web entities. *)
Definition images_lines (title : string) (images : list WebImage)
  : list string :=
  match images with
  | [] => []
  | _ :: _ =>
      (nl ++ str_of_Z (Z.of_nat (List.length images)) ++ title)
      :: map (fun image => "Url  : " ++ image_url image) images
  end.

Definition entities_lines (float_str : float -> string)
    (entities : list WebEntity) : list string :=
  match entities with
  | [] => []
  | _ :: _ =>
      (nl ++ str_of_Z (Z.of_nat (List.length entities))
          ++ " Web entities found: ")
      :: flat_map (fun entity =>
                     [ "Score      : " ++ float_str (entity_score entity);
                       "Description: " ++ entity_description entity ])
           entities
  end.

Definition web_rest_lines (float_str : float -> string)
    (full partial : list WebImage) (entities : list WebEntity)
  : list string :=
  (images_lines " Full Matches found: " full
   ++ images_lines " Partial Matches found: " partial
   ++ entities_lines float_str entities)%list.

(** The lines of one object. *)
Definition object_lines (float_str : float -> string)
    (object_ : LocalizedObjectAnnotation) : list string :=
  (nl ++ name object_ ++ " (confidence: "
      ++ float_str (object_score object_) ++ ")")
  :: "Normalized bounding polygon vertices: "
  :: map (fun vertex =>
            " - (" ++ float_str (nvertex_x vertex) ++ ", "
            ++ float_str (nvertex_y vertex) ++ ")")
       (normalized_vertices (object_bounding_poly object_)).

(** The error policy of a report that checks the error field: it ends
    normally on an empty message, and otherwise raises the message
    followed by the pointer to the error-code documentation. *)
Definition error_policy (response : AnnotateImageResponse)
    (res : result unit) : Prop :=
  (message (error response) = EmptyString -> res = Ok tt) /\
  (message (error response) <> EmptyString ->
   res = Raise (Exception
                  (message (error response) ++ nl
                   ++ "For more info on error messages, check: "
                   ++ "https://cloud.google.com/apis/design/errors"))).

(** The events of one section of [annotate]: the request, followed at
    once by what the section's report does with the answer. *)
Definition section_events (float_str : float -> string) (w : World)
    (image : Image) (c : category) : trace :=
  ECall c image
  :: match request w c image with
     | Ok response => written (report float_str c response)
     | Raise _ => []
     end.

(** A percentage with exactly two decimal places: an optional minus
    sign, the digits of a natural number, a point, two digits. *)
Definition two_decimals (p : string) : Prop :=
  exists (s : bool) (ip d1 d2 : Z),
    0 <= ip /\ 0 <= d1 <= 9 /\ 0 <= d2 <= 9 /\
    p = sign_str s ++ str_of_Z ip ++ "."
        ++ String (digit d1) (String (digit d2) EmptyString).

(** ** Vocabulary of the further properties *)

(** What the face section prints of a face before the lookup that
    fails: nothing when the anger ordinal is off the table, the anger
    line when the joy ordinal is, the anger and joy lines otherwise. *)
Definition face_partial_lines (face : FaceAnnotation) : list string :=
  if valid_index (anger_likelihood face) then
    ("anger: " ++ likelihood_label (anger_likelihood face))
    :: (if valid_index (joy_likelihood face)
        then [ "joy: " ++ likelihood_label (joy_likelihood face) ]
        else [])
  else [].

(** How one section of [annotate] ends: with the exception of the
    request, or as the report of the answer ends. *)
Definition section_result (float_str : float -> string) (w : World)
    (image : Image) (c : category) : result unit :=
  match request w c image with
  | Ok response => outcome (report float_str c response)
  | Raise e => Raise e
  end.

(** The world [w] with other error descriptors on the answers to the
    label, web and object requests. *)
Definition override_errors (err : category -> Image -> Status) (w : World)
  : World :=
  {| read_file := read_file w;
     request := fun c image =>
       match c with
       | Labels | Web | Objects =>
           match request w c image with
           | Ok response => Ok (with_error response (err c image))
           | Raise e => Raise e
           end
       | Faces | Logos | Text => request w c image
       end |}.

(** A world where the answer to the logo request carries an error
    message. *)
Definition logo_error_world : World :=
  {| read_file := fun _ => Some [x00; x01]%byte;
     request := fun c _ =>
       match c with
       | Logos => Ok (with_error empty_response {| message := "quota" |})
       | _ => Ok empty_response
       end |}.

(** A world where the web request fails in the client library. *)
Definition web_down_world : World :=
  {| read_file := fun _ => Some [x00; x01]%byte;
     request := fun c _ =>
       match c with
       | Web => Raise (ClientError "unavailable")
       | _ => Ok empty_response
       end |}.

(** ** The effect monad: how computations extend the trace *)

#[local] Open Scope list_scope.

Lemma runs_ret {A : Type} (a : A) : runs (ret a) [] (Ok a).
Proof. intros t. unfold ret. now rewrite app_nil_r. Qed.

Lemma runs_raise {A : Type} (e : exn) : runs (@raise A e) [] (Raise e).
Proof. intros t. unfold raise. now rewrite app_nil_r. Qed.

Lemma runs_emit (e : event) : runs (emit e) [e] (Ok tt).
Proof. intros t. reflexivity. Qed.

Lemma runs_lift {A : Type} (r : result A) : runs (lift r) [] r.
Proof. destruct r; [apply runs_ret | apply runs_raise]. Qed.

Lemma runs_bind_ok {A B : Type} (m : M A) (k : A -> M B) o1 a o2 r :
  runs m o1 (Ok a) -> runs (k a) o2 r -> runs (bind m k) (o1 ++ o2) r.
Proof.
  intros Hm Hk t. unfold bind. rewrite Hm, Hk. now rewrite app_assoc.
Qed.

Lemma runs_bind_raise {A B : Type} (m : M A) (k : A -> M B) o e :
  runs m o (Raise e) -> runs (bind m k) o (Raise e).
Proof. intros Hm t. unfold bind. now rewrite Hm. Qed.

Lemma runs_written {A : Type} (m : M A) out res :
  runs m out res -> written m = out /\ outcome m = res.
Proof. intros H. unfold written, outcome. now rewrite (H []). Qed.

Lemma runs_text_written {A : Type} (m : M A) out res t :
  runs m out res -> text_written m t = stdout out.
Proof.
  intros H. unfold text_written. rewrite H. cbn [fst].
  now rewrite skipn_app, Nat.sub_diag, skipn_all, skipn_O.
Qed.

Lemma prints_print (s : string) : prints (print s) [s] (Ok tt).
Proof. apply runs_emit. Qed.

Lemma prints_bind_ok {A B : Type} (m : M A) (k : A -> M B) l1 a l2 r :
  prints m l1 (Ok a) -> prints (k a) l2 r -> prints (bind m k) (l1 ++ l2) r.
Proof.
  unfold prints. intros Hm Hk. rewrite map_app. eapply runs_bind_ok; eauto.
Qed.

Lemma prints_bind_raise {A B : Type} (m : M A) (k : A -> M B) l e :
  prints m l (Raise e) -> prints (bind m k) l (Raise e).
Proof. apply runs_bind_raise. Qed.

(** A loop whose every round prints its lines and goes on prints the
    lines of all rounds, in order. *)
Lemma prints_for_each {A : Type} (xs : list A) (body : A -> M unit)
    (lines : A -> list string) :
  (forall x, In x xs -> prints (body x) (lines x) (Ok tt)) ->
  prints (for_each xs body) (flat_map lines xs) (Ok tt).
Proof.
  induction xs as [|x xs IH]; intros H; cbn [for_each flat_map].
  - apply (runs_ret tt).
  - eapply prints_bind_ok.
    + apply H. now left.
    + apply IH. intros y Hy. apply H. now right.
Qed.

Lemma printer_ret {A : Type} (a : A) : printer (ret a).
Proof. exists [], (Ok a). apply runs_ret. Qed.

Lemma printer_raise {A : Type} (e : exn) : printer (@raise A e).
Proof. exists [], (Raise e). apply runs_raise. Qed.

Lemma printer_lift {A : Type} (r : result A) : printer (lift r).
Proof. exists [], r. apply runs_lift. Qed.

Lemma printer_print (s : string) : printer (print s).
Proof. exists [s], (Ok tt). apply prints_print. Qed.

Lemma printer_bind {A B : Type} (m : M A) (k : A -> M B) :
  printer m -> (forall a, printer (k a)) -> printer (bind m k).
Proof.
  intros (l1 & [a | e] & Hm) Hk.
  - destruct (Hk a) as (l2 & r & Hka).
    exists (l1 ++ l2), r. eapply prints_bind_ok; eauto.
  - exists l1, (Raise e). now apply prints_bind_raise.
Qed.

Lemma printer_for_each {A : Type} (xs : list A) (body : A -> M unit) :
  (forall x, printer (body x)) -> printer (for_each xs body).
Proof.
  intros H. induction xs as [|x xs IH]; cbn [for_each].
  - apply printer_ret.
  - apply printer_bind; auto.
Qed.

Lemma printer_if {A : Type} (b : bool) (m1 m2 : M A) :
  printer m1 -> printer m2 -> printer (if b then m1 else m2).
Proof. now destruct b. Qed.

Create HintDb printer.

#[local] Hint Resolve printer_ret printer_raise printer_lift printer_print
  printer_for_each printer_if : printer.

Ltac printer_steps :=
  repeat first
    [ apply printer_bind; [ | intros ? ]
    | apply printer_for_each; intros ?
    | apply printer_if
    | solve [ auto with printer ] ].

Lemma printer_check_error response : printer (check_error response).
Proof. unfold check_error. printer_steps. Qed.

#[local] Hint Resolve printer_check_error : printer.

Lemma printer_text_report response : printer (text_report response).
Proof. unfold text_report. printer_steps. Qed.

Lemma printer_logo_report response : printer (logo_report response).
Proof. unfold logo_report. printer_steps. Qed.

Lemma printer_face_report response : printer (face_report response).
Proof. unfold face_report. printer_steps. Qed.

Lemma printer_labels_report response : printer (labels_report response).
Proof. unfold labels_report. printer_steps. Qed.

Lemma printer_object_report float_str objects :
  printer (object_report float_str objects).
Proof. unfold object_report. printer_steps. Qed.

Lemma printer_web_report float_str annotations :
  printer (web_report float_str annotations).
Proof. unfold web_report, pages_block. printer_steps. Qed.

Lemma printer_report float_str c response :
  printer (report float_str c response).
Proof.
  destruct c; cbn [report];
    auto using printer_text_report, printer_logo_report, printer_face_report,
      printer_labels_report, printer_object_report, printer_web_report.
Qed.

(** Printing neither opens a file nor calls the service. *)
Lemma calls_prints (lines : list string) : calls (map EPrint lines) = [].
Proof. induction lines; cbn; auto. Qed.

Lemma opens_prints (lines : list string) : opens (map EPrint lines) = [].
Proof. induction lines; cbn; auto. Qed.

Lemma calls_app (t1 t2 : trace) : calls (t1 ++ t2) = calls t1 ++ calls t2.
Proof.
  induction t1 as [|[| | |] t1 IH]; cbn; auto. now rewrite IH.
Qed.

Lemma opens_app (t1 t2 : trace) : opens (t1 ++ t2) = opens t1 ++ opens t2.
Proof.
  induction t1 as [|[| | |] t1 IH]; cbn; auto. now rewrite IH.
Qed.

Lemma prints_then {A : Type} (s : string) (k : M A) lines r :
  prints k lines r -> prints (print s ;; k) (s :: lines) r.
Proof.
  intros H. change (s :: lines) with ([s] ++ lines).
  eapply prints_bind_ok; [apply prints_print | exact H].
Qed.

Lemma prints_last (s : string) : prints (print s) [s] (Ok tt).
Proof. apply prints_print. Qed.

(** A loop over rounds that either print their lines and go on, or stop
    with the exception [e]: it goes through when every round goes on, and
    stops with [e] otherwise. *)
Lemma for_each_cases {A : Type} (good : A -> bool) (lines : A -> list string)
    (e : exn) (xs : list A) (body : A -> M unit) :
  (forall x, good x = true -> prints (body x) (lines x) (Ok tt)) ->
  (forall x, good x = false -> exists l, prints (body x) l (Raise e)) ->
  if forallb good xs
  then prints (for_each xs body) (flat_map lines xs) (Ok tt)
  else exists l, prints (for_each xs body) l (Raise e).
Proof.
  intros Hgood Hbad. induction xs as [|x xs IH]; cbn [forallb for_each flat_map].
  - apply (runs_ret tt).
  - destruct (good x) eqn:Hx; cbn [andb].
    + destruct (forallb good xs).
      * eapply prints_bind_ok; [now apply Hgood | exact IH].
      * destruct IH as [l Hl]. eexists.
        eapply prints_bind_ok; [now apply Hgood | exact Hl].
    + destruct (Hbad x Hx) as [l Hl]. exists l. now apply prints_bind_raise.
Qed.

(** ** Indexing the likelihood table *)

Lemma tuple_getitem_valid (i : Z) :
  valid_index i = true ->
  tuple_getitem likelihood_name i = Ok (likelihood_label i).
Proof.
  unfold valid_index. intros H.
  apply andb_true_iff in H as [H1 H2].
  apply Z.leb_le in H1. apply Z.ltb_lt in H2.
  assert (i = -6 \/ i = -5 \/ i = -4 \/ i = -3 \/ i = -2 \/ i = -1 \/
          i = 0 \/ i = 1 \/ i = 2 \/ i = 3 \/ i = 4 \/ i = 5) as Hi by lia.
  repeat (destruct Hi as [-> | Hi]; [reflexivity | ]). now subst.
Qed.

Lemma tuple_getitem_invalid (i : Z) :
  valid_index i = false ->
  tuple_getitem likelihood_name i = Raise (IndexError "tuple index out of range").
Proof.
  unfold valid_index, tuple_getitem. intros H.
  apply andb_false_iff in H.
  change (Z.of_nat (List.length likelihood_name)) with 6. cbv zeta.
  assert ((((if i <? 0 then i + 6 else i) <? 0)
           || (6 <=? (if i <? 0 then i + 6 else i))) = true) as ->; auto.
  apply orb_true_iff.
  destruct H as [H | H]; [apply Z.leb_gt in H | apply Z.ltb_ge in H];
    destruct (Z.ltb_spec i 0).
  - left. apply Z.ltb_lt. lia.
  - lia.
  - lia.
  - right. apply Z.leb_le. lia.
Qed.

Lemma in_enum_valid (i : Z) : in_enum i = true -> valid_index i = true.
Proof.
  unfold in_enum, valid_index. intros H.
  apply andb_true_iff in H as [H1 H2].
  apply Z.leb_le in H1, H2.
  apply andb_true_iff. split; [apply Z.leb_le | apply Z.ltb_lt]; lia.
Qed.

Lemma face_in_enum_valid (face : FaceAnnotation) :
  face_in_enum face = true -> face_valid face = true.
Proof.
  unfold face_in_enum, face_valid. intros H.
  apply andb_true_iff in H as [H H3]. apply andb_true_iff in H as [H1 H2].
  now rewrite !in_enum_valid.
Qed.

(** In the enumeration the label is the table entry at the ordinal. *)
Lemma likelihood_label_enum (i : Z) :
  in_enum i = true ->
  likelihood_label i = nth (Z.to_nat i) likelihood_name EmptyString.
Proof.
  unfold in_enum. intros H. apply andb_true_iff in H as [H1 H2].
  apply Z.leb_le in H1, H2. unfold likelihood_label.
  now rewrite Z.mod_small by lia.
Qed.

(** ** What each report prints *)

Lemma check_error_runs response :
  runs (check_error response) [] (outcome (check_error response)).
Proof.
  unfold outcome, check_error.
  destruct (str_truthy (message (error response)));
    [apply runs_raise | apply runs_ret].
Qed.

Lemma check_error_empty response :
  message (error response) = EmptyString ->
  outcome (check_error response) = Ok tt.
Proof. unfold outcome, check_error. now intros ->. Qed.

Lemma check_error_message response :
  message (error response) <> EmptyString ->
  outcome (check_error response)
  = Raise (Exception (message (error response) ++ nl
             ++ "For more info on error messages, check: "
             ++ "https://cloud.google.com/apis/design/errors")%string).
Proof.
  unfold outcome, check_error, error_text.
  destruct (message (error response)); [congruence | reflexivity].
Qed.

Lemma prints_check_error (m : M unit) lines response :
  prints m lines (Ok tt) ->
  prints (m ;; check_error response) lines (outcome (check_error response)).
Proof.
  intros H. rewrite <- (app_nil_r lines).
  eapply prints_bind_ok; [exact H | apply check_error_runs].
Qed.

Lemma text_report_prints response :
  prints (text_report response)
    ((nl ++ "Texts:")%string :: separator
       :: flat_map text_lines (text_annotations response))
    (outcome (check_error response)).
Proof.
  unfold text_report.
  do 2 apply prints_then.
  apply prints_check_error.
  apply prints_for_each. intros text _.
  apply prints_then, prints_last.
Qed.

Lemma logo_report_prints response :
  prints (logo_report response)
    ((nl ++ "Logos:")%string :: separator
       :: flat_map logo_lines (logo_annotations response))
    (outcome (check_error response)).
Proof.
  unfold logo_report.
  do 2 apply prints_then.
  apply prints_check_error.
  apply prints_for_each. intros logo _. apply prints_last.
Qed.

Lemma prints_lift_ok {A B : Type} (a : A) (k : A -> M B) lines r :
  prints (k a) lines r -> prints (x <- lift (Ok a) ;; k x) lines r.
Proof.
  intros H. change lines with ([] ++ lines).
  eapply prints_bind_ok; [apply (runs_ret a) | exact H].
Qed.

Lemma prints_lift_raise {A B : Type} (e : exn) (k : A -> M B) :
  prints (x <- lift (Raise e) ;; k x) [] (Raise e).
Proof. apply prints_bind_raise, runs_raise. Qed.

(** The face section goes through all faces when every ordinal indexes
    the table, and stops at the first one that does not. *)
Lemma face_report_prints response :
  if forallb face_valid (face_annotations response)
  then prints (face_report response)
         ((nl ++ "Faces:")%string :: separator
            :: flat_map face_lines (face_annotations response))
         (outcome (check_error response))
  else exists lines,
         prints (face_report response) lines
           (Raise (IndexError "tuple index out of range")).
Proof.
  unfold face_report.
  match goal with
  | |- context [for_each ?xs ?body] =>
      pose proof (for_each_cases face_valid face_lines
                    (IndexError "tuple index out of range") xs body) as H
  end.
  cbv beta in H.
  assert (Hloop := fun Hgood Hbad => H Hgood Hbad). clear H.
  match type of Hloop with
  | ?G -> ?B -> _ => assert G as Hgood; [ | assert B as Hbad ]
  end.
  - intros face Hface. unfold face_valid in Hface.
    apply andb_true_iff in Hface as [Hface Hs].
    apply andb_true_iff in Hface as [Ha Hj].
    rewrite !tuple_getitem_valid by assumption.
    apply prints_lift_ok, prints_then.
    apply prints_lift_ok, prints_then.
    apply prints_lift_ok, prints_then.
    apply prints_last.
  - intros face Hface. unfold face_valid in Hface.
    destruct (valid_index (anger_likelihood face)) eqn:Ha.
    + rewrite (tuple_getitem_valid _ Ha).
      destruct (valid_index (joy_likelihood face)) eqn:Hj.
      * rewrite (tuple_getitem_valid _ Hj).
        destruct (valid_index (surprise_likelihood face)) eqn:Hs;
          [discriminate | ].
        rewrite (tuple_getitem_invalid _ Hs). eexists.
        apply prints_lift_ok, prints_then.
        apply prints_lift_ok.
        eapply prints_bind_ok; [apply prints_print | ].
        apply prints_lift_raise.
      * rewrite (tuple_getitem_invalid _ Hj). eexists.
        apply prints_lift_ok.
        eapply prints_bind_ok; [apply prints_print | ].
        apply prints_lift_raise.
    + rewrite (tuple_getitem_invalid _ Ha). eexists.
      apply prints_lift_raise.
  - specialize (Hloop Hgood Hbad).
    destruct (forallb face_valid (face_annotations response)).
    + do 2 apply prints_then. now apply prints_check_error.
    + destruct Hloop as [l Hl]. eexists.
      do 2 apply prints_then. apply prints_bind_raise. exact Hl.
Qed.

(** The line of one label. *)
Lemma labels_report_prints response :
  prints (labels_report response)
    ((nl ++ "Labels (and confidence score):")%string :: separator
       :: map (fun label =>
                 (description label ++ " ("
                  ++ format_2f (float_mul (score label) hundred) ++ "%)")%string)
            (label_annotations response))
    (Ok tt).
Proof.
  unfold labels_report. do 2 apply prints_then.
  induction (label_annotations response) as [|label rest IH];
    cbn [for_each map].
  - apply (runs_ret tt).
  - apply prints_then, IH.
Qed.

(** A loop of single prints. *)
Lemma prints_for_each_map {A : Type} (xs : list A) (line : A -> string) :
  prints (for_each xs (fun x => print (line x))) (map line xs) (Ok tt).
Proof.
  induction xs as [|x xs IH]; cbn [for_each map].
  - apply (runs_ret tt).
  - apply prints_then, IH.
Qed.

Lemma prints_seq {A : Type} (m : M unit) (k : M A) l1 l2 r :
  prints m l1 (Ok tt) -> prints k l2 r -> prints (m ;; k) (l1 ++ l2) r.
Proof. intros Hm Hk. eapply prints_bind_ok; eauto. Qed.

Lemma object_report_prints float_str objects :
  prints (object_report float_str objects)
    ((nl ++ "Objects:")%string :: separator
       :: ("Number of objects found: "
           ++ str_of_Z (Z.of_nat (List.length objects)))%string
       :: flat_map (object_lines float_str) objects)
    (Ok tt).
Proof.
  unfold object_report. do 3 apply prints_then.
  apply prints_for_each. intros object_ _. unfold object_lines.
  do 2 apply prints_then. apply prints_for_each_map.
Qed.

Lemma pages_block_prints pages :
  prints (pages_block pages) (pages_lines pages) (Ok tt).
Proof.
  unfold pages_block, pages_lines. destruct pages as [|page rest].
  - apply (runs_ret tt).
  - cbn [list_truthy]. apply prints_then, prints_for_each_map.
Qed.

Lemma web_report_prints float_str annotations :
  prints (web_report float_str annotations)
    ((nl ++ "Web entities (and relevancy score):")%string :: separator
       :: pages_lines (pages_with_matching_images annotations)
       ++ web_rest_lines float_str
            (full_matching_images annotations)
            (partial_matching_images annotations)
            (web_entities annotations))
    (Ok tt).
Proof.
  unfold web_report, web_rest_lines. do 2 apply prints_then.
  apply prints_seq; [apply pages_block_prints | ].
  apply prints_seq; [ | apply prints_seq ].
  - unfold images_lines.
    destruct (full_matching_images annotations); cbn [list_truthy].
    + apply (runs_ret tt).
    + apply prints_then, prints_for_each_map.
  - unfold images_lines.
    destruct (partial_matching_images annotations); cbn [list_truthy].
    + apply (runs_ret tt).
    + apply prints_then, prints_for_each_map.
  - unfold entities_lines.
    destruct (web_entities annotations); cbn [list_truthy].
    + apply (runs_ret tt).
    + apply prints_then. apply prints_for_each. intros entity _.
      apply prints_then, prints_last.
Qed.

Lemma error_policy_check response :
  error_policy response (outcome (check_error response)).
Proof.
  split; [apply check_error_empty | apply check_error_message].
Qed.

Lemma printer_deterministic {A : Type} (m : M A) (t1 t2 : trace) :
  printer m ->
  text_written m t1 = text_written m t2 /\ snd (m t1) = snd (m t2).
Proof.
  intros (lines & res & H). split.
  - now rewrite !(runs_text_written _ _ _ _ H).
  - now rewrite !H.
Qed.

(** ** The report functions *)

(** C8: each of the six report functions is deterministic: on a fixed
    response, two invocations, whatever was printed before each of them,
    send the same text to standard output and end the same way. *)
Theorem reports_deterministic :
  forall (float_str : float -> string) (response : AnnotateImageResponse)
         (annotations : WebDetection)
         (objects : list LocalizedObjectAnnotation) (t1 t2 : trace),
    (text_written (labels_report response) t1
     = text_written (labels_report response) t2
     /\ snd (labels_report response t1) = snd (labels_report response t2))
    /\ (text_written (web_report float_str annotations) t1
        = text_written (web_report float_str annotations) t2
        /\ snd (web_report float_str annotations t1)
           = snd (web_report float_str annotations t2))
    /\ (text_written (face_report response) t1
        = text_written (face_report response) t2
        /\ snd (face_report response t1) = snd (face_report response t2))
    /\ (text_written (logo_report response) t1
        = text_written (logo_report response) t2
        /\ snd (logo_report response t1) = snd (logo_report response t2))
    /\ (text_written (text_report response) t1
        = text_written (text_report response) t2
        /\ snd (text_report response t1) = snd (text_report response t2))
    /\ (text_written (object_report float_str objects) t1
        = text_written (object_report float_str objects) t2
        /\ snd (object_report float_str objects t1)
           = snd (object_report float_str objects t2)).
Proof.
  intros. repeat split; apply printer_deterministic;
    auto using printer_text_report, printer_logo_report, printer_face_report,
      printer_labels_report, printer_object_report, printer_web_report.
Qed.

(** C1, amended: the logo and text reports, and the face report on a
    response whose likelihood ordinals all index the table, raise exactly
    when the error message is non-empty, with the service's message
    followed by the pointer to the error-code documentation; the labels,
    web and object reports never read the error field and never raise. *)
Theorem service_error_policy :
  forall (float_str : float -> string) (response : AnnotateImageResponse)
         (t : trace),
    (forallb face_valid (face_annotations response) = true ->
     error_policy response (snd (face_report response t)))
    /\ error_policy response (snd (logo_report response t))
    /\ error_policy response (snd (text_report response t))
    /\ (forall e : Status,
          labels_report (with_error response e) t = labels_report response t
          /\ report float_str Web (with_error response e) t
             = report float_str Web response t
          /\ report float_str Objects (with_error response e) t
             = report float_str Objects response t)
    /\ snd (labels_report response t) = Ok tt
    /\ (forall annotations, snd (web_report float_str annotations t) = Ok tt)
    /\ (forall objects, snd (object_report float_str objects t) = Ok tt).
Proof.
  intros float_str response t.
  split; [ | split; [ | split; [ | split; [ | split; [ | split ] ] ] ] ].
  - intros Hvalid. pose proof (face_report_prints response) as H.
    rewrite Hvalid in H. rewrite H. apply error_policy_check.
  - rewrite logo_report_prints. apply error_policy_check.
  - rewrite text_report_prints. apply error_policy_check.
  - intros e. repeat split.
  - now rewrite labels_report_prints.
  - intros annotations. now rewrite web_report_prints.
  - intros objects. now rewrite object_report_prints.
Qed.

(** The policy at work on a face response with one face and the error
    message [boom]. *)
Lemma service_error_policy_witness :
  forallb face_valid [face_of 3 0 5] = true
  /\ snd (face_report
            (with_error (with_faces empty_response [face_of 3 0 5])
               {| message := "boom" |}) [])
     = Raise (Exception
                ("boom" ++ nl ++ "For more info on error messages, check: "
                 ++ "https://cloud.google.com/apis/design/errors")%string).
Proof.
  split; [reflexivity | ].
  destruct (service_error_policy sample_float_str
              (with_error (with_faces empty_response [face_of 3 0 5])
                 {| message := "boom" |}) []) as [Hface _].
  destruct (Hface eq_refl) as [_ Hraise].
  apply Hraise. discriminate.
Defined.

(** C1 as stated fails on the face report: a face whose anger ordinal is
    6 makes it raise although the error message is empty. *)
Lemma service_error_policy_counterexample :
  message (error (with_faces empty_response [face_of 6 0 0])) = EmptyString
  /\ snd (face_report (with_faces empty_response [face_of 6 0 0]) [])
     = Raise (IndexError "tuple index out of range").
Proof. split; reflexivity. Qed.

(** C10, amended: on a response with a non-empty error message the logo
    and text reports, and the face report when every likelihood ordinal
    indexes the table, first print the whole section (header, separator
    and the lines of every record) and only then raise the service
    error. *)
Theorem section_printed_before_error :
  forall (response : AnnotateImageResponse) (t : trace),
    message (error response) <> EmptyString ->
    (forallb face_valid (face_annotations response) = true ->
     face_report response t
     = (t ++ map EPrint
               ((nl ++ "Faces:")%string :: separator
                  :: flat_map face_lines (face_annotations response)),
        Raise (Exception (error_text (message (error response))))))
    /\ logo_report response t
       = (t ++ map EPrint
                 ((nl ++ "Logos:")%string :: separator
                    :: flat_map logo_lines (logo_annotations response)),
          Raise (Exception (error_text (message (error response)))))
    /\ text_report response t
       = (t ++ map EPrint
                 ((nl ++ "Texts:")%string :: separator
                    :: flat_map text_lines (text_annotations response)),
          Raise (Exception (error_text (message (error response))))).
Proof.
  intros response t Hmsg.
  pose proof (check_error_message response Hmsg) as Hres.
  fold (error_text (message (error response))) in Hres.
  split; [ | split ].
  - intros Hvalid. pose proof (face_report_prints response) as H.
    rewrite Hvalid in H. now rewrite H, Hres.
  - now rewrite logo_report_prints, Hres.
  - now rewrite text_report_prints, Hres.
Qed.

Lemma section_printed_before_error_witness :
  text_report
    {| label_annotations := []; web_detection := no_web;
       face_annotations := []; logo_annotations := [];
       text_annotations := [label_of "STOP" score_08765];
       localized_object_annotations := [];
       error := {| message := "boom" |} |} []
  = ([EPrint (nl ++ "Texts:")%string; EPrint separator;
      EPrint (nl ++ dquote ++ "STOP" ++ dquote)%string; EPrint "bounds: "],
     Raise (Exception (error_text "boom"))).
Proof.
  apply (section_printed_before_error
           {| label_annotations := []; web_detection := no_web;
              face_annotations := []; logo_annotations := [];
              text_annotations := [label_of "STOP" score_08765];
              localized_object_annotations := [];
              error := {| message := "boom" |} |} []).
  discriminate.
Defined.

(** C10 as stated fails on the face report: with a record whose anger
    ordinal is 6 and the error message [boom], it prints the header and
    the separator only and raises the index error, not the service
    error. *)
Lemma section_printed_before_error_counterexample :
  face_annotations
    (with_error (with_faces empty_response [face_of 6 0 0])
       {| message := "boom" |}) = [face_of 6 0 0]
  /\ face_report
       (with_error (with_faces empty_response [face_of 6 0 0])
          {| message := "boom" |}) []
     = ([EPrint (nl ++ "Faces:")%string; EPrint separator],
        Raise (IndexError "tuple index out of range")).
Proof. split; reflexivity. Qed.

Lemma valid_index_range (i : Z) : valid_index i = true <-> -6 <= i <= 5.
Proof.
  unfold valid_index. rewrite andb_true_iff, Z.leb_le, Z.ltb_lt. lia.
Qed.

(** C9, amended: the likelihood rendering indexes a six-entry table by
    position, so the face report is free of index errors exactly when
    every anger, joy and surprise ordinal lies in -6..5 (an ordinal in
    -6..-1 counts from the end of the table); with an ordinal outside
    that range in some face it raises the index error, unhandled. *)
Theorem face_report_index_error :
  forall (response : AnnotateImageResponse) (t : trace),
    (forall i : Z,
        tuple_getitem likelihood_name i
        = if valid_index i then Ok (likelihood_label i)
          else Raise (IndexError "tuple index out of range"))
    /\ (forall i : Z, valid_index i = true <-> -6 <= i <= 5)
    /\ (snd (face_report response t)
        = Raise (IndexError "tuple index out of range")
        <-> forallb face_valid (face_annotations response) = false).
Proof.
  intros response t. split; [ | split ].
  - intros i. destruct (valid_index i) eqn:Hi.
    + now apply tuple_getitem_valid.
    + now apply tuple_getitem_invalid.
  - apply valid_index_range.
  - pose proof (face_report_prints response) as H.
    destruct (forallb face_valid (face_annotations response)).
    + rewrite H. cbn [snd]. split; [ | discriminate ].
      unfold outcome, check_error.
      destruct (str_truthy (message (error response))); discriminate.
    + destruct H as [lines H]. rewrite H. now split.
Qed.

(** C9 as stated fails: the ordinal -1 is outside 0..5, and the face
    report renders it as the last entry of the table and returns. *)
Lemma face_report_index_error_counterexample :
  in_enum (-1) = false
  /\ face_report (with_faces empty_response [face_of (-1) 0 0]) []
     = ([EPrint (nl ++ "Faces:")%string; EPrint separator;
         EPrint "anger: VERY_LIKELY"; EPrint "joy: UNKNOWN";
         EPrint "surprise: UNKNOWN";
         EPrint "face bounds: (1,2),(30,2),(30,40),(1,40)"],
        Ok tt).
Proof. split; reflexivity. Qed.

(** C7: the web report leaves the "Pages with matching images" block out
    altogether when that collection is empty; when it is not, the block
    is a count line with the collection's length, then one url line per
    page; the rest of the section does not depend on the collection. *)
Theorem web_report_pages_block :
  forall (float_str : float -> string) (annotations : WebDetection)
         (t : trace),
    let pages := pages_with_matching_images annotations in
    let rest :=
      web_rest_lines float_str (full_matching_images annotations)
        (partial_matching_images annotations) (web_entities annotations) in
    (pages = [] ->
     web_report float_str annotations t
     = (t ++ map EPrint
               ((nl ++ "Web entities (and relevancy score):")%string
                  :: separator :: rest),
        Ok tt))
    /\ (pages <> [] ->
        web_report float_str annotations t
        = (t ++ map EPrint
                  ((nl ++ "Web entities (and relevancy score):")%string
                     :: separator
                     :: (nl ++ str_of_Z (Z.of_nat (List.length pages))
                            ++ " Pages with matching images retrieved")%string
                     :: map (fun page => ("Url   : " ++ page_url page)%string)
                          pages
                     ++ rest),
           Ok tt)).
Proof.
  intros float_str annotations t pages rest.
  pose proof (web_report_prints float_str annotations t) as H.
  fold pages rest in H. rewrite H. unfold pages_lines.
  split; intros Hpages.
  - now rewrite Hpages.
  - destruct pages; [congruence | reflexivity].
Qed.

Lemma web_report_pages_block_witness :
  web_report sample_float_str
    (with_pages no_web [ {| page_url := "http://a" |};
                         {| page_url := "http://b" |} ]) []
  = ([EPrint (nl ++ "Web entities (and relevancy score):")%string;
      EPrint separator;
      EPrint (nl ++ "2 Pages with matching images retrieved")%string;
      EPrint "Url   : http://a"; EPrint "Url   : http://b"],
     Ok tt).
Proof.
  apply (web_report_pages_block sample_float_str
           (with_pages no_web [ {| page_url := "http://a" |};
                                {| page_url := "http://b" |} ]) []).
  discriminate.
Defined.

(** ** Percentages *)

Lemma round_half_even_div_nearest (n d : Z) :
  0 < d -> 2 * Z.abs (round_half_even_div n d * d - n) <= d.
Proof.
  intros Hd. unfold round_half_even_div.
  pose proof (Z.div_mod n d ltac:(lia)) as Hn.
  pose proof (Z.mod_pos_bound n d Hd) as Hr.
  set (q := n / d) in *. set (r := n mod d) in *.
  assert (q * d - n = - r) as Hsame by lia.
  assert ((q + 1) * d - n = d - r) as Hnext by lia.
  destruct (Z.compare_spec (2 * r) d) as [He | Hl | Hg];
    [destruct (Z.even q) | | ]; rewrite ?Hsame, ?Hnext; lia.
Qed.

Lemma round_half_even_div_nonneg (n d : Z) :
  0 <= n -> 0 < d -> 0 <= round_half_even_div n d.
Proof.
  intros Hn Hd. unfold round_half_even_div.
  pose proof (Z.div_pos n d Hn Hd).
  destruct (2 * (n mod d) ?= d); [destruct (Z.even (n / d)) | | ]; lia.
Qed.

Lemma hundredths_nonneg (m : positive) (e : Z) : 0 <= hundredths m e.
Proof.
  unfold hundredths. destruct (Z.leb_spec 0 e).
  - pose proof (Z.pow_nonneg 2 e ltac:(lia)). nia.
  - apply round_half_even_div_nonneg; [lia | ].
    apply Z.pow_pos_nonneg; lia.
Qed.

(** The printed hundredths are the nearest ones to the float's value. *)
Lemma hundredths_nearest (m : positive) (e : Z) :
  (0 <= e -> hundredths m e = Z.pos m * 2 ^ e * 100)
  /\ (e < 0 ->
      2 * Z.abs (hundredths m e * 2 ^ (- e) - Z.pos m * 100) <= 2 ^ (- e)).
Proof.
  unfold hundredths. split; intros He.
  - now destruct (Z.leb_spec 0 e); [ | lia].
  - destruct (Z.leb_spec 0 e); [lia | ].
    apply round_half_even_div_nearest, Z.pow_pos_nonneg; lia.
Qed.

Lemma two_decimals_fixed2 (s : bool) (h : Z) :
  0 <= h -> two_decimals (sign_str s ++ fixed2 h).
Proof.
  intros Hh. exists s, (h / 100), (h mod 100 / 10), (h mod 100 mod 10).
  pose proof (Z.mod_pos_bound h 100 ltac:(lia)) as Hm.
  pose proof (Z.mod_pos_bound (h mod 100) 10 ltac:(lia)) as Hd.
  split; [apply Z.div_pos; lia | ].
  split; [ | split; [lia | reflexivity]].
  split; [apply Z.div_pos; lia | ].
  apply Z.lt_succ_r, Z.div_lt_upper_bound; lia.
Qed.

Lemma format_2f_two_decimals (x : float) :
  float_finite x = true -> two_decimals (format_2f x).
Proof.
  destruct x as [s | s | | s m e]; cbn [float_finite format_2f];
    try discriminate; intros _.
  - exists s, 0, 0, 0. repeat split; lia.
  - apply two_decimals_fixed2, hundredths_nonneg.
Qed.

Lemma str_length_app (a b : string) :
  String.length (a ++ b) = (String.length a + String.length b)%nat.
Proof. induction a as [|c a IH]; cbn; auto. Qed.

(** The word [nan] has no decimal places. *)
Lemma nan_not_two_decimals : ~ two_decimals "nan".
Proof.
  intros (s & ip & d1 & d2 & _ & _ & _ & H).
  pose proof (f_equal String.length H) as Hlen.
  rewrite !str_length_app in Hlen. cbn [String.length] in Hlen.
  destruct s; cbn [sign_str String.length] in *; [lia | ].
  destruct (str_of_Z ip) as [|c rest]; cbn [String.length] in *; [ | lia].
  cbn in H. discriminate.
Qed.

(** The sample score is the float nearest to 0.8765: it has 53 bits
    and lies within half a unit in the last place of 8765/10000. *)
Lemma score_08765_nearest :
  score_08765 = S754_finite false 7894810146780479 (-53)
  /\ 2 ^ 52 <= 7894810146780479 < 2 ^ 53
  /\ 2 * Z.abs (7894810146780479 * 10000 - 8765 * 2 ^ 53) <= 10000.
Proof. split; [reflexivity | split; [split | ]]; vm_compute; congruence. Qed.

(** C6 as stated fails on a score that is not a number: the line shows
    the word [nan], which has no decimal places. *)
Lemma labels_percentage_counterexample :
  labels_report
    {| label_annotations := [label_of "cat" S754_nan];
       web_detection := no_web; face_annotations := [];
       logo_annotations := []; text_annotations := [];
       localized_object_annotations := [];
       error := {| message := EmptyString |} |} []
  = ([EPrint (nl ++ "Labels (and confidence score):")%string;
      EPrint separator; EPrint "cat (nan%)"],
     Ok tt)
  /\ ~ two_decimals "nan".
Proof. split; [reflexivity | apply nan_not_two_decimals]. Qed.

(** ** [annotate] *)

(** The monad laws, pointwise. *)
Lemma bind_assoc {A B C : Type} (m : M A) (f : A -> M B) (g : B -> M C) t :
  bind (bind m f) g t = bind m (fun a => bind (f a) g) t.
Proof. unfold bind. now destruct (m t) as [t' [a | e]]. Qed.

Lemma bind_ret_l {A B : Type} (a : A) (k : A -> M B) t :
  bind (ret a) k t = k a t.
Proof. reflexivity. Qed.

Lemma bind_ret_r (m : M unit) t : bind m (fun _ => ret tt) t = m t.
Proof. unfold bind, ret. now destruct (m t) as [t' [[] | e]]. Qed.

Lemma bind_ext {A B : Type} (m : M A) (f g : A -> M B) t :
  (forall a t', f a t' = g a t') -> bind m f t = bind m g t.
Proof. intros H. unfold bind. now destruct (m t) as [t' [a | e]]. Qed.

(** The body of [annotate] is the loop over the six categories. *)
Lemma annotate_sections float_str w path t :
  annotate float_str w path t
  = (emit ENewClient ;;
     image <- load_image w path ;;
     run_sections float_str w image all_categories) t.
Proof.
  unfold annotate, all_categories. cbn [run_sections report].
  apply bind_ext; intros _ t0. apply bind_ext; intros image t1.
  apply bind_ext; intros labels_response t2. apply bind_ext; intros _ t3.
  rewrite bind_assoc. apply bind_ext; intros web_response t4.
  rewrite bind_ret_l. apply bind_ext; intros _ t5.
  apply bind_ext; intros face_response t6. apply bind_ext; intros _ t7.
  apply bind_ext; intros logo_response t8. apply bind_ext; intros _ t9.
  apply bind_ext; intros text_response t10. apply bind_ext; intros _ t11.
  rewrite bind_assoc. apply bind_ext; intros object_response t12.
  rewrite bind_ret_l. now rewrite bind_ret_r.
Qed.

Lemma load_image_runs w path :
  runs (load_image w path)
    (written (load_image w path)) (outcome (load_image w path)).
Proof.
  unfold written, outcome, load_image, io_open_read.
  destruct (is_remote path).
  - apply runs_ret.
  - destruct (read_file w path) as [content | ]; intros t; reflexivity.
Qed.

Lemma load_image_remote w path :
  is_remote path = true ->
  written (load_image w path) = []
  /\ outcome (load_image w path) = Ok (ImageUri path).
Proof. unfold written, outcome, load_image. now intros ->. Qed.

Lemma load_image_local w path :
  is_remote path = false ->
  written (load_image w path) = [EOpen path]
  /\ outcome (load_image w path)
     = match read_file w path with
       | Some content => Ok (ImageContent content)
       | None => Raise (OSError path)
       end.
Proof.
  unfold written, outcome, load_image, io_open_read. intros ->.
  now destruct (read_file w path).
Qed.

Lemma call_runs w c image :
  runs (call w c image) [ECall c image] (request w c image).
Proof.
  unfold call. change [ECall c image] with ([ECall c image] ++ []).
  eapply runs_bind_ok; [apply runs_emit | apply runs_lift].
Qed.

Lemma report_runs float_str c response :
  exists lines,
    written (report float_str c response) = map EPrint lines
    /\ runs (report float_str c response) (map EPrint lines)
         (outcome (report float_str c response)).
Proof.
  destruct (printer_report float_str c response) as (lines & res & H).
  exists lines. destruct (runs_written _ _ _ H) as [-> ->]. now split.
Qed.

(** The loop runs its sections in order and stops in the first one that
    raises: its events are those of the first [k] sections, and all of
    them when it returns. *)
Lemma run_sections_runs float_str w image cs :
  exists k res,
    (k <= List.length cs)%nat
    /\ runs (run_sections float_str w image cs)
         (flat_map (section_events float_str w image) (firstn k cs)) res
    /\ (res = Ok tt ->
        k = List.length cs
        /\ Forall (fun c => exists response,
                       request w c image = Ok response
                       /\ outcome (report float_str c response) = Ok tt) cs).
Proof.
  induction cs as [|c rest IH]; cbn [run_sections].
  - exists 0%nat, (Ok tt). split; [auto | split; [apply (runs_ret tt) | auto]].
  - pose proof (call_runs w c image) as Hcall.
    destruct (request w c image) as [response | e] eqn:Hreq.
    + destruct (report_runs float_str c response) as (lines & Hw & Hrep).
      destruct (outcome (report float_str c response)) as [[] | e] eqn:Hout.
      * destruct IH as (k & res & Hk & Hrun & Hok).
        exists (S k), res. split; [cbn; lia | split].
        -- cbn [firstn flat_map]. unfold section_events at 1.
           rewrite Hreq, Hw.
           change (ECall c image :: map EPrint lines)
             with ([ECall c image] ++ map EPrint lines).
           rewrite <- app_assoc.
           eapply runs_bind_ok; [exact Hcall | ].
           eapply runs_bind_ok; [exact Hrep | exact Hrun].
        -- intros Hres. destruct (Hok Hres) as [-> Hall].
           split; [reflexivity | ].
           constructor; [ | exact Hall]. exists response. now split.
      * exists 1%nat, (Raise e). split; [cbn; lia | split; [ | discriminate]].
        cbn [firstn flat_map]. unfold section_events.
        rewrite Hreq, Hw, app_nil_r.
        change (ECall c image :: map EPrint lines)
          with ([ECall c image] ++ map EPrint lines).
        eapply runs_bind_ok; [exact Hcall | ].
        apply runs_bind_raise. exact Hrep.
    + exists 1%nat, (Raise e). split; [cbn; lia | split; [ | discriminate]].
      cbn [firstn flat_map]. unfold section_events. rewrite Hreq.
      apply runs_bind_raise. exact Hcall.
Qed.

(** A section issues its own request, with the given payload, and opens
    no file. *)
Lemma calls_sections float_str w image cs :
  calls (flat_map (section_events float_str w image) cs)
  = map (fun c => (c, image)) cs.
Proof.
  induction cs as [|c rest IH]; cbn [flat_map map]; auto.
  rewrite calls_app, IH. unfold section_events. cbn [calls]. f_equal.
  destruct (request w c image) as [response | e]; auto.
  destruct (report_runs float_str c response) as (lines & -> & _).
  now rewrite calls_prints.
Qed.

Lemma opens_sections float_str w image cs :
  opens (flat_map (section_events float_str w image) cs) = [].
Proof.
  induction cs as [|c rest IH]; cbn [flat_map]; auto.
  rewrite opens_app, IH, app_nil_r. unfold section_events. cbn [opens].
  destruct (request w c image) as [response | e]; auto.
  destruct (report_runs float_str c response) as (lines & -> & _).
  now rewrite opens_prints.
Qed.

(** The whole run: the client, the payload, then the sections. *)
Lemma annotate_runs float_str w path :
  match outcome (load_image w path) with
  | Raise e =>
      runs (annotate float_str w path)
        (ENewClient :: written (load_image w path)) (Raise e)
  | Ok image =>
      exists k res,
        (k <= 6)%nat
        /\ runs (annotate float_str w path)
             (ENewClient :: written (load_image w path)
                ++ flat_map (section_events float_str w image)
                     (firstn k all_categories)) res
        /\ (res = Ok tt ->
            k = 6%nat
            /\ Forall (fun c => exists response,
                           request w c image = Ok response
                           /\ outcome (report float_str c response) = Ok tt)
                 all_categories)
  end.
Proof.
  pose proof (load_image_runs w path) as Hload.
  destruct (outcome (load_image w path)) as [image | e].
  - destruct (run_sections_runs float_str w image all_categories)
      as (k & res & Hk & Hrun & Hok).
    exists k, res. split; [exact Hk | split; [ | exact Hok]].
    intros t. rewrite annotate_sections.
    change (ENewClient :: ?l) with ([ENewClient] ++ l).
    revert t. eapply runs_bind_ok; [apply runs_emit | ].
    eapply runs_bind_ok; [exact Hload | exact Hrun].
  - intros t. rewrite annotate_sections.
    change (ENewClient :: ?l) with ([ENewClient] ++ l).
    revert t. eapply runs_bind_ok; [apply runs_emit | ].
    apply runs_bind_raise. exact Hload.
Qed.

Lemma prefix_app (p s : string) :
  String.prefix p s = true <-> exists rest, s = (p ++ rest)%string.
Proof.
  revert s. induction p as [|a p IH]; intros s.
  - split; [exists s; reflexivity | now destruct s].
  - destruct s as [|b s]; cbn.
    + split; [discriminate | intros [rest H]; discriminate].
    + destruct (ascii_dec a b) as [-> | Hab].
      * rewrite IH. split; intros [rest H]; exists rest; congruence.
      * split; [discriminate | intros [rest H]; congruence].
Qed.

Lemma is_remote_prefix (path : string) :
  is_remote path = true
  <-> (exists rest, path = ("http" ++ rest)%string)
      \/ (exists rest, path = ("gs:" ++ rest)%string).
Proof.
  unfold is_remote, startswith. now rewrite orb_true_iff, !prefix_app.
Qed.

(** The events and requests of a run, from what the payload step gives. *)
Lemma annotate_trace float_str w path t :
  exists k,
    (k <= 6)%nat
    /\ match outcome (load_image w path) with
       | Raise e =>
           k = 0%nat
           /\ annotate float_str w path t
              = (t ++ ENewClient :: written (load_image w path), Raise e)
       | Ok image =>
           fst (annotate float_str w path t)
           = t ++ ENewClient :: written (load_image w path)
               ++ flat_map (section_events float_str w image)
                    (firstn k all_categories)
           /\ (snd (annotate float_str w path t) = Ok tt ->
               k = 6%nat
               /\ Forall (fun c => exists response,
                              request w c image = Ok response
                              /\ outcome (report float_str c response) = Ok tt)
                    all_categories)
       end.
Proof.
  pose proof (annotate_runs float_str w path) as H.
  destruct (outcome (load_image w path)) as [image | e].
  - destruct H as (k & res & Hk & Hrun & Hok). exists k.
    split; [exact Hk | ]. rewrite Hrun. now split.
  - exists 0%nat. split; [lia | ]. now rewrite H.
Qed.

(** C2 as stated fails: when the answer to the face request carries an
    error message, the face report raises after three requests, and the
    logo, text and object requests are never made. *)
Lemma six_calls_counterexample :
  is_remote "cat.png" = false
  /\ calls (fst (annotate sample_float_str face_error_world "cat.png" []))
     = [ (Labels, ImageContent [x00; x01]%byte);
         (Web, ImageContent [x00; x01]%byte);
         (Faces, ImageContent [x00; x01]%byte) ]
  /\ snd (annotate sample_float_str face_error_world "cat.png" [])
     = Raise (Exception (error_text "boom")).
Proof. repeat split. Qed.

(** C3: [annotate] takes its input for a remote reference exactly when
    it starts with [http] or [gs:]: it then builds a URI image and opens
    no file; any other input it opens as a local file, whose whole
    contents become the payload, and the run fails at once when the file
    cannot be opened. *)
Theorem input_classification :
  forall (float_str : float -> string) (w : World) (path : string)
         (t : trace),
    (is_remote path = true
     <-> (exists rest, path = ("http" ++ rest)%string)
         \/ (exists rest, path = ("gs:" ++ rest)%string))
    /\ (is_remote path = true ->
        load_image w path t = (t, Ok (ImageUri path))
        /\ opens (fst (annotate float_str w path t)) = opens t
        /\ exists k,
             calls (fst (annotate float_str w path t))
             = calls t ++ map (fun c => (c, ImageUri path))
                            (firstn k all_categories))
    /\ (is_remote path = false ->
        forall content, read_file w path = Some content ->
          load_image w path t = (t ++ [EOpen path], Ok (ImageContent content))
          /\ opens (fst (annotate float_str w path t)) = opens t ++ [path]
          /\ exists k,
               calls (fst (annotate float_str w path t))
               = calls t ++ map (fun c => (c, ImageContent content))
                              (firstn k all_categories))
    /\ (is_remote path = false ->
        read_file w path = None ->
        annotate float_str w path t
        = (t ++ [ENewClient; EOpen path], Raise (OSError path))).
Proof.
  intros float_str w path t.
  destruct (annotate_trace float_str w path t) as (k & Hk & H).
  pose proof (load_image_runs w path t) as Hload.
  split; [apply is_remote_prefix | split; [ | split]].
  - intros Hremote.
    destruct (load_image_remote w path Hremote) as [Hw Ho].
    rewrite Hw, Ho in *. rewrite app_nil_r in Hload.
    destruct H as [Htrace _]. split; [exact Hload | ].
    rewrite Htrace. change (ENewClient :: [] ++ ?l) with ([ENewClient] ++ l).
    rewrite !opens_app, !calls_app, opens_sections, calls_sections.
    cbn [opens calls]. rewrite !app_nil_r. split; [reflexivity | ].
    now exists k.
  - intros Hlocal content Hread.
    destruct (load_image_local w path Hlocal) as [Hw Ho].
    rewrite Hw, Ho, Hread in *.
    destruct H as [Htrace _]. split; [exact Hload | ].
    rewrite Htrace.
    change (ENewClient :: [EOpen path] ++ ?l)
      with ([ENewClient; EOpen path] ++ l).
    rewrite !opens_app, !calls_app, opens_sections, calls_sections.
    cbn [opens calls]. rewrite !app_nil_r. split; [reflexivity | ].
    now exists k.
  - intros Hlocal Hread.
    destruct (load_image_local w path Hlocal) as [Hw Ho].
    rewrite Hw, Ho, Hread in H. now destruct H.
Qed.

(** A web address is a remote reference; a missing local file stops the
    run before any request. *)
Lemma input_classification_witness :
  load_image quiet_world "http://example.org/cat.png" []
  = ([], Ok (ImageUri "http://example.org/cat.png"))
  /\ annotate sample_float_str empty_disk_world "cat.png" []
     = ([ENewClient; EOpen "cat.png"], Raise (OSError "cat.png")).
Proof.
  split.
  - destruct (input_classification sample_float_str quiet_world
                "http://example.org/cat.png" []) as (_ & Hremote & _).
    destruct (Hremote eq_refl) as [Hload _]. exact Hload.
  - destruct (input_classification sample_float_str empty_disk_world
                "cat.png" []) as (_ & _ & _ & Hmissing).
    exact (Hmissing eq_refl eq_refl).
Defined.

(** * Further properties of the script *)

(** ** The object and web sections *)

Lemma length_flat_map_sum {A B : Type} (f : A -> list B) (xs : list A) :
  List.length (flat_map f xs)
  = list_sum (map (fun x => List.length (f x)) xs).
Proof.
  induction xs as [|x xs IH]; cbn [flat_map map list_sum]; auto.
  now rewrite length_app, IH.
Qed.

(** X1: the object report never raises; it prints the header, the
    separator, a count line with the number of objects, and for each
    object its name with its confidence, the caption of the polygon and
    one line per normalized vertex. *)
Theorem object_report_output :
  forall (float_str : float -> string)
         (objects : list LocalizedObjectAnnotation) (t : trace),
    object_report float_str objects t
    = (t ++ map EPrint
              ((nl ++ "Objects:")%string :: separator
                 :: ("Number of objects found: "
                     ++ str_of_Z (Z.of_nat (List.length objects)))%string
                 :: flat_map
                      (fun object_ =>
                         (nl ++ name object_ ++ " (confidence: "
                          ++ float_str (object_score object_) ++ ")")%string
                         :: "Normalized bounding polygon vertices: "
                         :: map (fun vertex =>
                                   (" - (" ++ float_str (nvertex_x vertex)
                                    ++ ", " ++ float_str (nvertex_y vertex)
                                    ++ ")")%string)
                              (normalized_vertices
                                 (object_bounding_poly object_)))
                      objects),
       Ok tt)
    /\ List.length (written (object_report float_str objects))
       = (3 + list_sum
                (map (fun object_ =>
                        2 + List.length
                              (normalized_vertices
                                 (object_bounding_poly object_)))
                   objects))%nat.
Proof.
  intros float_str objects t.
  pose proof (object_report_prints float_str objects) as H.
  split; [apply H | ].
  destruct (runs_written _ _ _ H) as [-> _].
  rewrite length_map. cbn [List.length]. rewrite length_flat_map_sum.
  change (3 + ?n)%nat with (S (S (S n))). do 4 f_equal. apply map_ext. intros object_. unfold object_lines.
  cbn [List.length]. now rewrite length_map.
Qed.

(** X2: the web report never raises; after the header and the separator
    come, in this order, the blocks of the matching pages, the full
    matches, the partial matches and the web entities; a block is left
    out when its collection is empty, and is otherwise a count line
    followed by one url line per page or image, or by a score line and a
    description line per entity. *)
Theorem web_report_output :
  forall (float_str : float -> string) (annotations : WebDetection)
         (t : trace),
    let block {A : Type} (xs : list A) (title : string)
              (lines : A -> list string) : list string :=
      match xs with
      | [] => []
      | _ :: _ =>
          (nl ++ str_of_Z (Z.of_nat (List.length xs)) ++ title)%string
          :: flat_map lines xs
      end in
    web_report float_str annotations t
    = (t ++ map EPrint
              ((nl ++ "Web entities (and relevancy score):")%string
                 :: separator
                 :: block (pages_with_matching_images annotations)
                      " Pages with matching images retrieved"
                      (fun page => [ ("Url   : " ++ page_url page)%string ])
                 ++ block (full_matching_images annotations)
                      " Full Matches found: "
                      (fun image => [ ("Url  : " ++ image_url image)%string ])
                 ++ block (partial_matching_images annotations)
                      " Partial Matches found: "
                      (fun image => [ ("Url  : " ++ image_url image)%string ])
                 ++ block (web_entities annotations)
                      " Web entities found: "
                      (fun entity =>
                         [ ("Score      : "
                            ++ float_str (entity_score entity))%string;
                           ("Description: "
                            ++ entity_description entity)%string ])),
       Ok tt).
Proof.
  intros float_str annotations t block.
  rewrite web_report_prints.
  assert (forall {A : Type} (f : A -> string) (xs : list A),
             flat_map (fun x => [f x]) xs = map f xs) as Hmap.
  { intros A f xs. induction xs; cbn; congruence. }
  unfold web_rest_lines, pages_lines, images_lines, entities_lines, block.
  destruct (pages_with_matching_images annotations),
    (full_matching_images annotations),
    (partial_matching_images annotations), (web_entities annotations);
    now rewrite ?Hmap.
Qed.

(** ** The sections that check the error field *)

Lemma bind_print {A : Type} (s : string) (k : unit -> M A) t :
  bind (print s) k t = k tt (t ++ [EPrint s]).
Proof. reflexivity. Qed.

(** The error check adds nothing to the trace. *)
Lemma fst_check_error (m : M unit) response t :
  fst ((m ;; check_error response) t) = fst (m t).
Proof.
  unfold bind, check_error. destruct (m t) as [t' [[] | e]]; auto.
  now destruct (str_truthy (message (error response))).
Qed.

(** X3: what the face, logo and text reports print does not depend on
    the error descriptor of the response: the error message decides how
    the report ends, never what the section shows. *)
Theorem section_text_ignores_error :
  forall (response : AnnotateImageResponse) (e : Status) (t : trace),
    fst (face_report (with_error response e) t) = fst (face_report response t)
    /\ fst (logo_report (with_error response e) t)
       = fst (logo_report response t)
    /\ fst (text_report (with_error response e) t)
       = fst (text_report response t).
Proof.
  intros response e t. unfold face_report, logo_report, text_report.
  rewrite !bind_print, !fst_check_error. repeat split.
Qed.

Lemma flat_map_singleton {A B : Type} (f : A -> B) (xs : list A) :
  flat_map (fun x => [f x]) xs = map f xs.
Proof. induction xs as [|x xs IH]; cbn; congruence. Qed.

Lemma length_flat_map_const {A B : Type} (f : A -> list B) (n : nat)
    (xs : list A) :
  (forall x, List.length (f x) = n) ->
  List.length (flat_map f xs) = (n * List.length xs)%nat.
Proof.
  intros H. induction xs as [|x xs IH]; cbn [flat_map List.length]; [lia | ].
  rewrite length_app, H, IH. lia.
Qed.

(** X4: on a response with an empty error message the text and logo
    reports, and the face report when every likelihood ordinal indexes
    the table, return normally after the header, the separator and the
    lines of every record: two lines per text, one per logo, four per
    face. *)
Theorem sections_without_error :
  forall (response : AnnotateImageResponse) (t : trace),
    message (error response) = EmptyString ->
    (text_report response t
     = (t ++ map EPrint
               ((nl ++ "Texts:")%string :: separator
                  :: flat_map
                       (fun text =>
                          [ (nl ++ dquote ++ description text ++ dquote)%string;
                            ("bounds: "
                             ++ join ","
                                  (map vertex_str
                                     (vertices (bounding_poly text))))%string ])
                       (text_annotations response)),
        Ok tt)
     /\ List.length (written (text_report response))
        = (2 + 2 * List.length (text_annotations response))%nat)
    /\ (logo_report response t
        = (t ++ map EPrint
                  ((nl ++ "Logos:")%string :: separator
                     :: map description (logo_annotations response)),
           Ok tt)
        /\ List.length (written (logo_report response))
           = (2 + List.length (logo_annotations response))%nat)
    /\ (forallb face_valid (face_annotations response) = true ->
        face_report response t
        = (t ++ map EPrint
                  ((nl ++ "Faces:")%string :: separator
                     :: flat_map face_lines (face_annotations response)),
           Ok tt)
        /\ List.length (written (face_report response))
           = (2 + 4 * List.length (face_annotations response))%nat).
Proof.
  intros response t Hmsg.
  pose proof (check_error_empty response Hmsg) as Hres.
  pose proof (text_report_prints response) as Htext.
  pose proof (logo_report_prints response) as Hlogo.
  pose proof (face_report_prints response) as Hface.
  rewrite Hres in *.
  split; [ | split].
  - split; [apply Htext | ].
    destruct (runs_written _ _ _ Htext) as [-> _].
    rewrite length_map. cbn [List.length].
    now rewrite (length_flat_map_const text_lines 2).
  - assert (flat_map logo_lines (logo_annotations response)
            = map description (logo_annotations response)) as Hmap.
    { apply (flat_map_singleton description). }
    rewrite Hmap in Hlogo. split; [apply Hlogo | ].
    destruct (runs_written _ _ _ Hlogo) as [-> _].
    rewrite length_map. cbn [List.length]. now rewrite length_map.
  - intros Hvalid. rewrite Hvalid in Hface. split; [apply Hface | ].
    destruct (runs_written _ _ _ Hface) as [-> _].
    rewrite length_map. cbn [List.length].
    now rewrite (length_flat_map_const face_lines 4).
Qed.

Lemma sections_without_error_witness :
  logo_report
    {| label_annotations := []; web_detection := no_web;
       face_annotations := [];
       logo_annotations := [label_of "Acme" score_08765;
                            label_of "Globex" score_08765];
       text_annotations := []; localized_object_annotations := [];
       error := {| message := EmptyString |} |} []
  = ([EPrint (nl ++ "Logos:")%string; EPrint separator;
      EPrint "Acme"; EPrint "Globex"],
     Ok tt).
Proof.
  destruct (sections_without_error
              {| label_annotations := []; web_detection := no_web;
                 face_annotations := [];
                 logo_annotations := [label_of "Acme" score_08765;
                                      label_of "Globex" score_08765];
                 text_annotations := []; localized_object_annotations := [];
                 error := {| message := EmptyString |} |} [] eq_refl)
    as (_ & [Hlogo _] & _).
  exact Hlogo.
Defined.

(** A loop stops in the first round that raises: the rounds before it
    print their lines, that round prints what it did before raising, and
    the rounds after it do not run. *)
Lemma for_each_stops {A : Type} (lines : A -> list string)
    (good : list A) (bad : A) (rest : list A) (body : A -> M unit)
    (partial : list string) (e : exn) :
  (forall x, In x good -> prints (body x) (lines x) (Ok tt)) ->
  prints (body bad) partial (Raise e) ->
  prints (for_each (good ++ bad :: rest) body)
    (flat_map lines good ++ partial) (Raise e).
Proof.
  intros Hgood Hbad. induction good as [|x good IH];
    cbn [app for_each flat_map].
  - now apply prints_bind_raise.
  - rewrite <- app_assoc. eapply prints_bind_ok.
    + apply Hgood. now left.
    + apply IH. intros y Hy. apply Hgood. now right.
Qed.

(** X5: the face report stops at the first face with an ordinal that
    does not index the table: the faces before it are printed in full,
    of that face only the likelihood lines before the failing lookup,
    never its bounds nor anything of the faces after it, and the index
    error is raised whatever the error message says. *)
Theorem face_report_stops_at_bad_face :
  forall (response : AnnotateImageResponse)
         (good : list FaceAnnotation) (bad : FaceAnnotation)
         (rest : list FaceAnnotation) (t : trace),
    face_annotations response = good ++ bad :: rest ->
    forallb face_valid good = true ->
    face_valid bad = false ->
    face_report response t
    = (t ++ map EPrint
              ((nl ++ "Faces:")%string :: separator
                 :: flat_map face_lines good ++ face_partial_lines bad),
       Raise (IndexError "tuple index out of range")).
Proof.
  intros response good bad rest t Hfaces Hgood Hbad.
  cut (prints (face_report response)
         ((nl ++ "Faces:")%string :: separator
            :: flat_map face_lines good ++ face_partial_lines bad)
         (Raise (IndexError "tuple index out of range"))); [intros H; apply H | ].
  unfold face_report. rewrite Hfaces.
  do 2 apply prints_then. apply prints_bind_raise.
  apply for_each_stops.
  - intros face Hface. rewrite forallb_forall in Hgood.
    specialize (Hgood face Hface). unfold face_valid in Hgood.
    apply andb_true_iff in Hgood as [Hgood Hs].
    apply andb_true_iff in Hgood as [Ha Hj].
    rewrite !tuple_getitem_valid by assumption.
    apply prints_lift_ok, prints_then.
    apply prints_lift_ok, prints_then.
    apply prints_lift_ok, prints_then.
    apply prints_last.
  - unfold face_valid in Hbad. unfold face_partial_lines.
    destruct (valid_index (anger_likelihood bad)) eqn:Ha.
    + rewrite (tuple_getitem_valid _ Ha).
      destruct (valid_index (joy_likelihood bad)) eqn:Hj.
      * rewrite (tuple_getitem_valid _ Hj).
        destruct (valid_index (surprise_likelihood bad)) eqn:Hs;
          [discriminate | ].
        rewrite (tuple_getitem_invalid _ Hs).
        apply prints_lift_ok, prints_then.
        apply prints_lift_ok.
        change [("joy: " ++ likelihood_label (joy_likelihood bad))%string]
          with ([("joy: " ++ likelihood_label (joy_likelihood bad))%string]
                  ++ []).
        eapply prints_bind_ok; [apply prints_print | ].
        apply prints_lift_raise.
      * rewrite (tuple_getitem_invalid _ Hj).
        apply prints_lift_ok.
        change [("anger: " ++ likelihood_label (anger_likelihood bad))%string]
          with ([("anger: "
                  ++ likelihood_label (anger_likelihood bad))%string] ++ []).
        eapply prints_bind_ok; [apply prints_print | ].
        apply prints_lift_raise.
    + rewrite (tuple_getitem_invalid _ Ha). apply prints_lift_raise.
Qed.

Lemma face_report_stops_at_bad_face_witness :
  face_report
    (with_error
       (with_faces empty_response [face_of 3 0 5; face_of 4 9 1; face_of 1 1 1])
       {| message := "boom" |}) []
  = ([EPrint (nl ++ "Faces:")%string; EPrint separator;
      EPrint "anger: POSSIBLE"; EPrint "joy: UNKNOWN";
      EPrint "surprise: VERY_LIKELY";
      EPrint "face bounds: (1,2),(30,2),(30,40),(1,40)";
      EPrint "anger: LIKELY"],
     Raise (IndexError "tuple index out of range")).
Proof.
  exact (face_report_stops_at_bad_face
           (with_error
              (with_faces empty_response
                 [face_of 3 0 5; face_of 4 9 1; face_of 1 1 1])
              {| message := "boom" |})
           [face_of 3 0 5] (face_of 4 9 1) [face_of 1 1 1] []
           eq_refl eq_refl eq_refl).
Defined.

(** ** How the sections of [annotate] compose *)

Lemma str_app_assoc (a b c : string) :
  ((a ++ b) ++ c)%string = (a ++ b ++ c)%string.
Proof. induction a as [|x a IH]; cbn; congruence. Qed.

Lemma str_app_nil_r (a : string) : (a ++ EmptyString)%string = a.
Proof. induction a as [|x a IH]; cbn; congruence. Qed.

Lemma stdout_app (t1 t2 : trace) :
  stdout (t1 ++ t2) = (stdout t1 ++ stdout t2)%string.
Proof.
  induction t1 as [|[| | |s] t1 IH]; cbn [app stdout]; auto.
  now rewrite IH, !str_app_assoc.
Qed.

(** One section and the sections after it. *)
Lemma section_goes_on float_str w image c rest out res :
  section_result float_str w image c = Ok tt ->
  runs (run_sections float_str w image rest) out res ->
  runs (run_sections float_str w image (c :: rest))
    (section_events float_str w image c ++ out) res.
Proof.
  unfold section_result, section_events. intros Hc Hrest.
  pose proof (call_runs w c image) as Hcall.
  destruct (request w c image) as [response | e]; [ | discriminate].
  destruct (report_runs float_str c response) as (lines & Hw & Hrep).
  rewrite Hc in Hrep. rewrite Hw. cbn [run_sections].
  change (ECall c image :: map EPrint lines)
    with ([ECall c image] ++ map EPrint lines).
  rewrite <- app_assoc.
  eapply runs_bind_ok; [exact Hcall | ].
  eapply runs_bind_ok; [exact Hrep | exact Hrest].
Qed.

Lemma section_raises float_str w image c rest e :
  section_result float_str w image c = Raise e ->
  runs (run_sections float_str w image (c :: rest))
    (section_events float_str w image c) (Raise e).
Proof.
  unfold section_result, section_events. intros Hc.
  pose proof (call_runs w c image) as Hcall. cbn [run_sections].
  destruct (request w c image) as [response | e'].
  - destruct (report_runs float_str c response) as (lines & Hw & Hrep).
    rewrite Hc in Hrep. rewrite Hw.
    change (ECall c image :: map EPrint lines)
      with ([ECall c image] ++ map EPrint lines).
    eapply runs_bind_ok; [exact Hcall | ].
    apply runs_bind_raise. exact Hrep.
  - injection Hc as ->. apply runs_bind_raise. exact Hcall.
Qed.

Lemma run_sections_all_ok float_str w image cs :
  (forall c, In c cs -> section_result float_str w image c = Ok tt) ->
  runs (run_sections float_str w image cs)
    (flat_map (section_events float_str w image) cs) (Ok tt).
Proof.
  induction cs as [|c rest IH]; intros H; cbn [flat_map].
  - apply (runs_ret tt).
  - apply section_goes_on; [apply H; now left | ].
    apply IH. intros c' Hc'. apply H. now right.
Qed.

Lemma run_sections_first_failure float_str w image pre c post e :
  (forall c', In c' pre -> section_result float_str w image c' = Ok tt) ->
  section_result float_str w image c = Raise e ->
  runs (run_sections float_str w image (pre ++ c :: post))
    (flat_map (section_events float_str w image) (pre ++ [c])) (Raise e).
Proof.
  intros Hpre Hc. induction pre as [|c' pre IH]; cbn [app flat_map].
  - rewrite app_nil_r. now apply section_raises.
  - apply section_goes_on; [apply Hpre; now left | ].
    apply IH. intros c'' Hc''. apply Hpre. now right.
Qed.

(** The run from the payload on. *)
Lemma annotate_from_payload float_str w path image out res :
  outcome (load_image w path) = Ok image ->
  runs (run_sections float_str w image all_categories) out res ->
  runs (annotate float_str w path)
    (ENewClient :: written (load_image w path) ++ out) res.
Proof.
  intros Himage Hrun t. rewrite annotate_sections.
  pose proof (load_image_runs w path) as Hload. rewrite Himage in Hload.
  change (ENewClient :: ?l) with ([ENewClient] ++ l).
  revert t. eapply runs_bind_ok; [apply runs_emit | ].
  eapply runs_bind_ok; [exact Hload | exact Hrun].
Qed.

Lemma stdout_load_image w path : stdout (written (load_image w path)) = EmptyString.
Proof.
  unfold written, load_image, io_open_read.
  destruct (is_remote path); [reflexivity | ].
  now destruct (read_file w path).
Qed.

(** X6: once the payload is loaded, [annotate] returns normally exactly
    when each of the six requests is answered and each report ends
    normally; the text on standard output is then the text of the six
    sections, in the order labels, web, faces, logos, text, objects, and
    nothing else. *)
Theorem annotate_returns_iff :
  forall (float_str : float -> string) (w : World) (path : string)
         (t : trace) (image : Image),
    outcome (load_image w path) = Ok image ->
    (snd (annotate float_str w path t) = Ok tt
     <-> forall c, exists response,
           request w c image = Ok response
           /\ outcome (report float_str c response) = Ok tt)
    /\ (snd (annotate float_str w path t) = Ok tt ->
        stdout (fst (annotate float_str w path t))
        = (stdout t
           ++ stdout (section_events float_str w image Labels)
           ++ stdout (section_events float_str w image Web)
           ++ stdout (section_events float_str w image Faces)
           ++ stdout (section_events float_str w image Logos)
           ++ stdout (section_events float_str w image Text)
           ++ stdout (section_events float_str w image Objects))%string).
Proof.
  intros float_str w path t image Himage.
  destruct (annotate_trace float_str w path t) as (k & Hk & H).
  rewrite Himage in H. destruct H as [Htrace Hok].
  assert ((forall c, exists response,
              request w c image = Ok response
              /\ outcome (report float_str c response) = Ok tt) ->
          forall c, section_result float_str w image c = Ok tt) as Hsec.
  { intros Hall c. destruct (Hall c) as (response & Hreq & Hrep).
    unfold section_result. now rewrite Hreq. }
  split; [split | ].
  - intros Hres. destruct (Hok Hres) as [_ Hall]. intros c.
    rewrite Forall_forall in Hall. apply Hall.
    unfold all_categories. destruct c; cbn; auto 10.
  - intros Hall.
    pose proof (annotate_from_payload float_str w path image _ _ Himage
                  (run_sections_all_ok float_str w image all_categories
                     (fun c _ => Hsec Hall c))) as Hrun.
    now rewrite Hrun.
  - intros Hres. destruct (Hok Hres) as [-> _]. rewrite Htrace.
    change (ENewClient :: ?l) with ([ENewClient] ++ l).
    rewrite !stdout_app, stdout_load_image. cbn [firstn all_categories flat_map].
    rewrite !stdout_app. cbn [stdout]. now rewrite !str_app_nil_r.
Qed.

Lemma annotate_returns_iff_witness :
  snd (annotate sample_float_str quiet_world "cat.png" []) = Ok tt
  <-> forall c, exists response,
        request quiet_world c (ImageContent [x00; x01]%byte) = Ok response
        /\ outcome (report sample_float_str c response) = Ok tt.
Proof.
  exact (proj1 (annotate_returns_iff sample_float_str quiet_world "cat.png"
                  [] (ImageContent [x00; x01]%byte) eq_refl)).
Defined.

(** X7: [annotate] handles no exception: when the sections before
    category [c] go through and the section of [c] raises, whether in the
    request or in the report, the run ends with that very exception, the
    trace ends with the events of that section, and the requests made
    are those of the categories up to [c]; no later request is issued. *)
Theorem annotate_first_failure :
  forall (float_str : float -> string) (w : World) (path : string)
         (t : trace) (image : Image)
         (pre : list category) (c : category) (post : list category)
         (e : exn),
    outcome (load_image w path) = Ok image ->
    all_categories = pre ++ c :: post ->
    (forall c', In c' pre -> section_result float_str w image c' = Ok tt) ->
    section_result float_str w image c = Raise e ->
    annotate float_str w path t
    = (t ++ ENewClient :: written (load_image w path)
         ++ flat_map (section_events float_str w image) (pre ++ [c]),
       Raise e)
    /\ calls (fst (annotate float_str w path t))
       = calls t ++ map (fun c' => (c', image)) (pre ++ [c]).
Proof.
  intros float_str w path t image pre c post e Himage Hcs Hpre Hc.
  pose proof (run_sections_first_failure float_str w image pre c post e
                Hpre Hc) as Hrun.
  rewrite <- Hcs in Hrun.
  pose proof (annotate_from_payload float_str w path image _ _ Himage Hrun)
    as Hann.
  split; [apply Hann | ].
  rewrite Hann. cbn [fst].
  change (ENewClient :: ?l) with ([ENewClient] ++ l).
  rewrite !calls_app, calls_sections. cbn [calls].
  assert (calls (written (load_image w path)) = []) as ->; [ | reflexivity].
  unfold written, load_image, io_open_read.
  destruct (is_remote path); [reflexivity | ].
  now destruct (read_file w path).
Qed.

Lemma annotate_first_failure_witness :
  snd (annotate sample_float_str web_down_world "cat.png" [])
  = Raise (ClientError "unavailable")
  /\ map fst (calls (fst (annotate sample_float_str web_down_world
                            "cat.png" [])))
     = [Labels; Web].
Proof.
  destruct (annotate_first_failure sample_float_str web_down_world "cat.png"
              [] (ImageContent [x00; x01]%byte) [Labels] Web
              [Faces; Logos; Text; Objects] (ClientError "unavailable")
              eq_refl eq_refl) as [Hrun Hcalls].
  - intros c' [<- | []]. reflexivity.
  - reflexivity.
  - rewrite Hcalls, Hrun. split; reflexivity.
Defined.

Lemma run_sections_override float_str err w image cs t :
  run_sections float_str (override_errors err w) image cs t
  = run_sections float_str w image cs t.
Proof.
  revert t. induction cs as [|c rest IH]; intros t; cbn [run_sections]; auto.
  unfold call. rewrite !bind_assoc. apply bind_ext. intros [] t1.
  cbn [override_errors request].
  destruct c; destruct (request w _ image) as [response | e];
    cbn [lift]; rewrite ?bind_ret_l; auto;
    cbn [report]; apply bind_ext; intros [] t2; apply IH.
Qed.

(** X8: a service error on the answer to the label, web or object
    request is never noticed: whatever error descriptors those three
    answers carry, the run makes the same requests, prints the same text
    and ends the same way. *)
Theorem annotate_ignores_unchecked_errors :
  forall (float_str : float -> string) (err : category -> Image -> Status)
         (w : World) (path : string) (t : trace),
    annotate float_str (override_errors err w) path t
    = annotate float_str w path t.
Proof.
  intros float_str err w path t. rewrite !annotate_sections.
  apply bind_ext. intros [] t1.
  change (load_image (override_errors err w) path) with (load_image w path).
  apply bind_ext. intros image t2. apply run_sections_override.
Qed.

(** ** The percentage of a label *)

Lemma round_half_even_div_tie (n d : Z) :
  0 < d ->
  2 * Z.abs (round_half_even_div n d * d - n) = d ->
  Z.even (round_half_even_div n d) = true.
Proof.
  intros Hd. unfold round_half_even_div.
  pose proof (Z.div_mod n d ltac:(lia)) as Hn.
  pose proof (Z.mod_pos_bound n d Hd) as Hr.
  set (q := n / d) in *. set (r := n mod d) in *.
  assert (q * d - n = - r) as Hsame by lia.
  assert ((q + 1) * d - n = d - r) as Hnext by lia.
  destruct (Z.compare_spec (2 * r) d) as [He | Hl | Hg].
  - destruct (Z.even q) eqn:Hq; [auto | ]. intros _.
    rewrite Z.add_1_r, Z.even_succ, <- Z.negb_even, Hq. reflexivity.
  - rewrite Hsame. lia.
  - rewrite Hnext. lia.
Qed.

(** X9: when the score times 100 is a finite non-zero float, the
    percentage of the label's line is the sign, then the count [h] of
    hundredths written as integer part, point and two digits, where [h]
    is the integer nearest to the exact value of the product in
    hundredths, the even one when two are equally near. *)
Theorem label_percentage_nearest :
  forall (response : AnnotateImageResponse) (label : EntityAnnotation)
         (s : bool) (m : positive) (e : Z),
    In label (label_annotations response) ->
    float_mul (score label) hundred = S754_finite s m e ->
    exists h : Z,
      0 <= h
      /\ (0 <= e -> h = Z.pos m * 2 ^ e * 100)
      /\ (e < 0 ->
          2 * Z.abs (h * 2 ^ (- e) - Z.pos m * 100) <= 2 ^ (- e)
          /\ (2 * Z.abs (h * 2 ^ (- e) - Z.pos m * 100) = 2 ^ (- e) ->
              Z.even h = true))
      /\ In (EPrint
               (description label ++ " ("
                ++ (sign_str s ++ str_of_Z (h / 100) ++ "."
                    ++ String (digit (h mod 100 / 10))
                         (String (digit (h mod 100 mod 10)) EmptyString))
                ++ "%)")%string)
            (written (labels_report response)).
Proof.
  intros response label s m e Hlabel Hproduct.
  exists (hundredths m e).
  split; [apply hundredths_nonneg | ].
  split; [apply hundredths_nearest | ].
  split.
  - intros He. split; [now apply hundredths_nearest | ].
    unfold hundredths. destruct (Z.leb_spec 0 e); [lia | ].
    apply round_half_even_div_tie, Z.pow_pos_nonneg; lia.
  - destruct (runs_written _ _ _ (labels_report_prints response)) as [-> _].
    apply in_map. right. right.
    apply (in_map (fun label =>
                     (description label ++ " ("
                      ++ format_2f (float_mul (score label) hundred)
                      ++ "%)")%string)) in Hlabel.
    cbv beta in Hlabel. rewrite Hproduct in Hlabel. exact Hlabel.
Qed.

Lemma label_percentage_nearest_witness :
  exists h : Z,
    0 <= h
    /\ (0 <= -46 -> h = 6167820427172249 * 2 ^ (-46) * 100)
    /\ (-46 < 0 ->
        2 * Z.abs (h * 2 ^ (- -46) - 6167820427172249 * 100) <= 2 ^ (- -46)
        /\ (2 * Z.abs (h * 2 ^ (- -46) - 6167820427172249 * 100)
            = 2 ^ (- -46) ->
            Z.even h = true))
    /\ In (EPrint
             ("cat" ++ " ("
              ++ (sign_str false ++ str_of_Z (h / 100) ++ "."
                  ++ String (digit (h mod 100 / 10))
                       (String (digit (h mod 100 mod 10)) EmptyString))
              ++ "%)")%string)
          (written
             (labels_report
                {| label_annotations := [label_of "cat" score_08765];
                   web_detection := no_web; face_annotations := [];
                   logo_annotations := []; text_annotations := [];
                   localized_object_annotations := [];
                   error := {| message := EmptyString |} |})).
Proof.
  exact (label_percentage_nearest
           {| label_annotations := [label_of "cat" score_08765];
              web_detection := no_web; face_annotations := [];
              logo_annotations := []; text_annotations := [];
              localized_object_annotations := [];
              error := {| message := EmptyString |} |}
           (label_of "cat" score_08765) false 6167820427172249 (-46)
           (or_introl eq_refl) eq_refl).
Defined.

(** * Runs and sections that an exception cuts short *)

(** ** Where a loop stops *)

(** Either every element passes the test, or there is a first one that
    does not. *)
Lemma forallb_or_first {A : Type} (p : A -> bool) (xs : list A) :
  forallb p xs = true
  \/ exists good bad rest,
       xs = good ++ bad :: rest
       /\ forallb p good = true /\ p bad = false.
Proof.
  induction xs as [|x xs IH]; [now left | ].
  destruct (p x) eqn:Hx.
  - destruct IH as [IH | (good & bad & rest & -> & Hgood & Hbad)].
    + left. cbn [forallb]. now rewrite Hx.
    + right. exists (x :: good), bad, rest. cbn [forallb app].
      now rewrite Hx.
  - right. now exists [], x, xs.
Qed.

(** Either every section goes through, or there is a first one that
    raises. *)
Lemma sections_ok_or_first float_str w image cs :
  (forall c, In c cs -> section_result float_str w image c = Ok tt)
  \/ exists pre c post e,
       cs = pre ++ c :: post
       /\ (forall c', In c' pre -> section_result float_str w image c' = Ok tt)
       /\ section_result float_str w image c = Raise e.
Proof.
  induction cs as [|c cs IH]; [left; intros c [] | ].
  destruct (section_result float_str w image c) as [[] | e] eqn:Hc.
  - destruct IH as [IH | (pre & c0 & post & e & -> & Hpre & Hc0)].
    + left. intros c' [<- | Hc']; auto.
    + right. exists (c :: pre), c0, post, e. split; [reflexivity | ].
      split; [ | exact Hc0]. intros c' [<- | Hc']; auto.
  - right. exists [], c, cs, e. split; [reflexivity | ].
    split; [intros c' [] | exact Hc].
Qed.

Lemma calls_load_image w path : calls (written (load_image w path)) = [].
Proof.
  unfold written, load_image, io_open_read.
  destruct (is_remote path); [reflexivity | ].
  now destruct (read_file w path).
Qed.

Lemma In_all_categories (c : category) : In c all_categories.
Proof. unfold all_categories. destruct c; cbn; auto 10. Qed.

(** The face section up to the first face with an ordinal that does not
    index the table. *)
Lemma face_report_stops response good bad rest :
  face_annotations response = good ++ bad :: rest ->
  forallb face_valid good = true ->
  face_valid bad = false ->
  prints (face_report response)
    ((nl ++ "Faces:")%string :: separator
       :: flat_map face_lines good ++ face_partial_lines bad)
    (Raise (IndexError "tuple index out of range")).
Proof.
  intros Hfaces Hgood Hbad. unfold face_report. rewrite Hfaces.
  do 2 apply prints_then. apply prints_bind_raise.
  apply for_each_stops.
  - intros face Hface. rewrite forallb_forall in Hgood.
    specialize (Hgood face Hface). unfold face_valid in Hgood.
    apply andb_true_iff in Hgood as [Hgood Hs].
    apply andb_true_iff in Hgood as [Ha Hj].
    rewrite !tuple_getitem_valid by assumption.
    do 3 apply prints_lift_ok, prints_then. apply prints_last.
  - unfold face_valid in Hbad. unfold face_partial_lines.
    destruct (valid_index (anger_likelihood bad)) eqn:Ha;
      [ | rewrite (tuple_getitem_invalid _ Ha); apply prints_lift_raise].
    rewrite (tuple_getitem_valid _ Ha). apply prints_lift_ok.
    destruct (valid_index (joy_likelihood bad)) eqn:Hj.
    + rewrite (tuple_getitem_valid _ Hj). apply prints_then, prints_lift_ok.
      destruct (valid_index (surprise_likelihood bad)) eqn:Hs;
        [discriminate | ].
      rewrite (tuple_getitem_invalid _ Hs).
      rewrite <- (app_nil_r [_]).
      eapply prints_bind_ok; [apply prints_print | apply prints_lift_raise].
    + rewrite (tuple_getitem_invalid _ Hj).
      rewrite <- (app_nil_r [_]).
      eapply prints_bind_ok; [apply prints_print | apply prints_lift_raise].
Qed.

(** ** Likelihoods, face by face *)

(** C5, amended: the face report maps the anger, joy and surprise
    ordinals through the six-entry table UNKNOWN, VERY_UNLIKELY, UNLIKELY,
    POSSIBLE, LIKELY, VERY_LIKELY by position, face after face and field
    after field, up to the first ordinal that does not index the table;
    in every line printed up to there ordinal 3 shows as POSSIBLE and
    ordinal 0 as UNKNOWN; at that ordinal the report raises the index
    error and prints neither the rest of that face nor any later face. *)
Theorem likelihood_mapping :
  forall (response : AnnotateImageResponse) (t : trace),
    let lines_of (face : FaceAnnotation) : list string :=
      [ ("anger: " ++ likelihood_label (anger_likelihood face))%string;
        ("joy: " ++ likelihood_label (joy_likelihood face))%string;
        ("surprise: " ++ likelihood_label (surprise_likelihood face))%string;
        ("face bounds: "
         ++ join "," (map vertex_str
                        (vertices (face_bounding_poly face))))%string ] in
    let lines_before_error (face : FaceAnnotation) : list string :=
      if valid_index (anger_likelihood face) then
        ("anger: " ++ likelihood_label (anger_likelihood face))%string
        :: (if valid_index (joy_likelihood face)
            then [ ("joy: "
                    ++ likelihood_label (joy_likelihood face))%string ]
            else [])
      else [] in
    likelihood_name
    = ["UNKNOWN"; "VERY_UNLIKELY"; "UNLIKELY"; "POSSIBLE"; "LIKELY";
       "VERY_LIKELY"]
    /\ likelihood_label 3 = "POSSIBLE"
    /\ likelihood_label 0 = "UNKNOWN"
    /\ (forall i : Z,
          in_enum i = true ->
          likelihood_label i = nth (Z.to_nat i) likelihood_name EmptyString)
    /\ (forall i : Z,
          tuple_getitem likelihood_name i
          = if valid_index i then Ok (likelihood_label i)
            else Raise (IndexError "tuple index out of range"))
    /\ (forallb face_valid (face_annotations response) = true ->
        fst (face_report response t)
        = t ++ map EPrint
                 ((nl ++ "Faces:")%string :: separator
                    :: flat_map lines_of (face_annotations response)))
    /\ (forall good bad rest,
          face_annotations response = good ++ bad :: rest ->
          forallb face_valid good = true ->
          face_valid bad = false ->
          face_report response t
          = (t ++ map EPrint
                    ((nl ++ "Faces:")%string :: separator
                       :: flat_map lines_of good ++ lines_before_error bad),
             Raise (IndexError "tuple index out of range")))
    /\ (forallb face_valid (face_annotations response) = true
        \/ exists good bad rest,
             face_annotations response = good ++ bad :: rest
             /\ forallb face_valid good = true
             /\ face_valid bad = false).
Proof.
  intros response t lines_of lines_before_error.
  split; [reflexivity | split; [reflexivity | split; [reflexivity | ]]].
  split; [apply likelihood_label_enum | ].
  split; [ | split; [ | split]].
  - intros i. destruct (valid_index i) eqn:Hi.
    + now apply tuple_getitem_valid.
    + now apply tuple_getitem_invalid.
  - intros Hvalid. pose proof (face_report_prints response) as H.
    rewrite Hvalid in H. now rewrite H.
  - intros good bad rest Hfaces Hgood Hbad.
    apply (face_report_stops response good bad rest Hfaces Hgood Hbad).
  - apply forallb_or_first.
Qed.

(** The second face has an anger ordinal in the enumeration and a joy
    ordinal that does not index the table. *)
Lemma likelihood_mapping_witness :
  face_report
    (with_faces empty_response [face_of 3 0 5; face_of 3 9 0; face_of 0 0 0])
    []
  = ([EPrint (nl ++ "Faces:")%string; EPrint separator;
      EPrint "anger: POSSIBLE"; EPrint "joy: UNKNOWN";
      EPrint "surprise: VERY_LIKELY";
      EPrint "face bounds: (1,2),(30,2),(30,40),(1,40)";
      EPrint "anger: POSSIBLE"],
     Raise (IndexError "tuple index out of range")).
Proof.
  destruct (likelihood_mapping
              (with_faces empty_response
                 [face_of 3 0 5; face_of 3 9 0; face_of 0 0 0]) [])
    as (_ & _ & _ & _ & _ & _ & Hstop & _).
  exact (Hstop [face_of 3 0 5] (face_of 3 9 0) [face_of 0 0 0]
           eq_refl eq_refl eq_refl).
Defined.

(** C5 as stated fails: the joy ordinal of this face is 3, and the
    report shows no likelihood for it, because the anger ordinal 6 stops
    the report first. *)
Lemma likelihood_mapping_counterexample :
  joy_likelihood (face_of 6 3 0) = 3
  /\ face_report (with_faces empty_response [face_of 6 3 0]) []
     = ([EPrint (nl ++ "Faces:")%string; EPrint separator],
        Raise (IndexError "tuple index out of range")).
Proof. split; reflexivity. Qed.

(** ** Percentages, label by label *)

(** C6, amended: the labels report prints, for every label of every
    response, the description followed by the score times 100 in the
    format of two decimals, and never raises; for every label whose
    score times 100 is a finite float, whatever the other labels are,
    that text is a percentage with exactly two decimal places; the score
    0.8765 renders as 87.65%. *)
Theorem labels_percentage :
  forall (response : AnnotateImageResponse) (t : trace),
    labels_report response t
    = (t ++ map EPrint
              ((nl ++ "Labels (and confidence score):")%string :: separator
                 :: map (fun label =>
                           (description label ++ " ("
                            ++ format_2f (float_mul (score label) hundred)
                            ++ "%)")%string)
                      (label_annotations response)),
       Ok tt)
    /\ (forall label,
          In label (label_annotations response) ->
          float_finite (float_mul (score label) hundred) = true ->
          two_decimals (format_2f (float_mul (score label) hundred)))
    /\ (forall label,
          In label (label_annotations response) ->
          score label = score_08765 ->
          format_2f (float_mul (score label) hundred) = "87.65").
Proof.
  intros response t. split; [ | split ].
  - apply labels_report_prints.
  - intros label _ Hfinite. now apply format_2f_two_decimals.
  - intros label _ ->. reflexivity.
Qed.

(** A finite score beside one that is not a number. *)
Lemma labels_percentage_witness :
  labels_report
    {| label_annotations := [label_of "cat" score_08765;
                             label_of "dog" S754_nan];
       web_detection := no_web; face_annotations := [];
       logo_annotations := []; text_annotations := [];
       localized_object_annotations := [];
       error := {| message := EmptyString |} |} []
  = ([EPrint (nl ++ "Labels (and confidence score):")%string;
      EPrint separator; EPrint "cat (87.65%)"; EPrint "dog (nan%)"],
     Ok tt)
  /\ two_decimals "87.65".
Proof.
  destruct (labels_percentage
              {| label_annotations := [label_of "cat" score_08765;
                                       label_of "dog" S754_nan];
                 web_detection := no_web; face_annotations := [];
                 logo_annotations := []; text_annotations := [];
                 localized_object_annotations := [];
                 error := {| message := EmptyString |} |} [])
    as (Htrace & Hdecimals & _).
  split; [exact Htrace | ].
  exact (Hdecimals (label_of "cat" score_08765) (or_introl eq_refl) eq_refl).
Defined.

(** ** The requests of a run *)

(** C2, amended: on a local image path, a run that returns normally has
    made exactly six requests, one per category, in the order labels,
    web, faces, logos, text, objects, each with the bytes of the file;
    an error cuts the rest short: no request is made when the file does
    not open, and when the section of a category raises, in its request
    or its report, after the sections before it went through, the run
    ends with that exception and the requests made are those of the
    categories up to that one and no other. *)
Theorem six_calls_without_error :
  forall (float_str : float -> string) (w : World) (path : string)
         (t : trace),
    is_remote path = false ->
    (read_file w path = None ->
     snd (annotate float_str w path t) = Raise (OSError path)
     /\ calls (fst (annotate float_str w path t)) = calls t)
    /\ (forall content, read_file w path = Some content ->
        (snd (annotate float_str w path t) = Ok tt ->
         calls (fst (annotate float_str w path t))
         = calls t
             ++ map (fun c => (c, ImageContent content))
                  [Labels; Web; Faces; Logos; Text; Objects])
        /\ (forall pre c post e,
              [Labels; Web; Faces; Logos; Text; Objects] = pre ++ c :: post ->
              (forall c', In c' pre ->
                 section_result float_str w (ImageContent content) c'
                 = Ok tt) ->
              section_result float_str w (ImageContent content) c = Raise e ->
              snd (annotate float_str w path t) = Raise e
              /\ calls (fst (annotate float_str w path t))
                 = calls t
                     ++ map (fun c' => (c', ImageContent content))
                          (pre ++ [c]))
        /\ (snd (annotate float_str w path t) = Ok tt
            \/ exists pre c post e,
                 [Labels; Web; Faces; Logos; Text; Objects]
                 = pre ++ c :: post
                 /\ (forall c', In c' pre ->
                       section_result float_str w (ImageContent content) c'
                       = Ok tt)
                 /\ section_result float_str w (ImageContent content) c
                    = Raise e)).
Proof.
  intros float_str w path t Hlocal.
  destruct (load_image_local w path Hlocal) as [Hw Ho].
  destruct (annotate_trace float_str w path t) as (k & Hk & H).
  split.
  - intros Hread. rewrite Ho, Hread in H. destruct H as [_ ->].
    cbn [fst snd]. split; [reflexivity | ].
    change (ENewClient :: ?l) with ([ENewClient] ++ l).
    rewrite !calls_app, calls_load_image. cbn [calls].
    now rewrite !app_nil_r.
  - intros content Hread. rewrite Hread in Ho. rewrite Ho in H.
    destruct H as [Htrace Hok].
    assert (forall out res,
               runs (run_sections float_str w (ImageContent content)
                       all_categories) out res ->
               snd (annotate float_str w path t) = res
               /\ calls (fst (annotate float_str w path t))
                  = calls t ++ calls out) as Hrun.
    { intros out res Hout.
      rewrite (annotate_from_payload float_str w path _ _ _ Ho Hout t).
      cbn [fst snd]. split; [reflexivity | ].
      change (ENewClient :: ?l) with ([ENewClient] ++ l).
      rewrite !calls_app, calls_load_image. reflexivity. }
    split; [ | split].
    + intros Hres. destruct (Hok Hres) as [-> _]. rewrite Htrace.
      change (ENewClient :: ?l) with ([ENewClient] ++ l).
      rewrite !calls_app, calls_load_image, calls_sections. reflexivity.
    + intros pre c post e Hcs Hpre Hc.
      pose proof (run_sections_first_failure float_str w _ pre c post e
                    Hpre Hc) as Hstop.
      rewrite <- Hcs in Hstop. destruct (Hrun _ _ Hstop) as [Hres Hcalls].
      split; [exact Hres | ]. now rewrite Hcalls, calls_sections.
    + destruct (sections_ok_or_first float_str w (ImageContent content)
                  all_categories) as [Hall | Hfirst].
      * left. apply (Hrun _ _ (run_sections_all_ok _ _ _ _ Hall)).
      * right. exact Hfirst.
Qed.

(** A run where every section goes through makes six requests; a run
    where the face report raises makes three. *)
Lemma six_calls_without_error_witness :
  calls (fst (annotate sample_float_str quiet_world "cat.png" []))
  = map (fun c => (c, ImageContent [x00; x01]%byte))
      [Labels; Web; Faces; Logos; Text; Objects]
  /\ snd (annotate sample_float_str face_error_world "cat.png" [])
     = Raise (Exception (error_text "boom"))
  /\ calls (fst (annotate sample_float_str face_error_world "cat.png" []))
     = map (fun c => (c, ImageContent [x00; x01]%byte)) [Labels; Web; Faces].
Proof.
  split.
  - destruct (six_calls_without_error sample_float_str quiet_world "cat.png"
                [] eq_refl) as [_ Hfile].
    destruct (Hfile [x00; x01]%byte eq_refl) as [Hsix _].
    exact (Hsix eq_refl).
  - destruct (six_calls_without_error sample_float_str face_error_world
                "cat.png" [] eq_refl) as [_ Hfile].
    destruct (Hfile [x00; x01]%byte eq_refl) as (_ & Hstop & _).
    apply (Hstop [Labels; Web] Faces [Logos; Text; Objects]
             (Exception (error_text "boom")) eq_refl).
    + intros c' [<- | [<- | []]]; reflexivity.
    + reflexivity.
Defined.

(** ** The order of a run *)

(** C4, amended: the control flow of [annotate] is strictly sequential:
    the payload is loaded once, then the sections run in the fixed
    order, each one the request with that same payload followed at once
    by the events of its own report, before the next request; when all
    six sections go through the service has been called six times and
    the run returns; the first section that raises, in its request or
    its report, ends the run with its exception, and no later request is
    made. *)
Theorem annotate_sequential :
  forall (float_str : float -> string) (w : World) (path : string)
         (t : trace),
    annotate float_str w path t
    = (emit ENewClient ;;
       image <- load_image w path ;;
       run_sections float_str w image all_categories) t
    /\ opens (fst (annotate float_str w path t))
       = opens t ++ (if is_remote path then [] else [path])
    /\ (forall e, outcome (load_image w path) = Raise e ->
          annotate float_str w path t
          = (t ++ ENewClient :: written (load_image w path), Raise e))
    /\ (forall image, outcome (load_image w path) = Ok image ->
          ((forall c, section_result float_str w image c = Ok tt) ->
           annotate float_str w path t
           = (t ++ ENewClient :: written (load_image w path)
                ++ flat_map (section_events float_str w image)
                     [Labels; Web; Faces; Logos; Text; Objects],
              Ok tt)
           /\ calls (fst (annotate float_str w path t))
              = calls t ++ map (fun c => (c, image))
                             [Labels; Web; Faces; Logos; Text; Objects])
          /\ (forall pre c post e,
                [Labels; Web; Faces; Logos; Text; Objects]
                = pre ++ c :: post ->
                (forall c', In c' pre ->
                   section_result float_str w image c' = Ok tt) ->
                section_result float_str w image c = Raise e ->
                annotate float_str w path t
                = (t ++ ENewClient :: written (load_image w path)
                     ++ flat_map (section_events float_str w image)
                          (pre ++ [c]),
                   Raise e)
                /\ calls (fst (annotate float_str w path t))
                   = calls t ++ map (fun c' => (c', image)) (pre ++ [c]))
          /\ ((forall c, section_result float_str w image c = Ok tt)
              \/ exists pre c post e,
                   [Labels; Web; Faces; Logos; Text; Objects]
                   = pre ++ c :: post
                   /\ (forall c', In c' pre ->
                         section_result float_str w image c' = Ok tt)
                   /\ section_result float_str w image c = Raise e)).
Proof.
  intros float_str w path t.
  destruct (annotate_trace float_str w path t) as (k & Hk & H).
  split; [apply annotate_sections | split; [ | split]].
  - assert (opens (written (load_image w path))
            = if is_remote path then [] else [path]) as Hopen.
    { destruct (is_remote path) eqn:Hr.
      - now destruct (load_image_remote w path Hr) as [-> _].
      - now destruct (load_image_local w path Hr) as [-> _]. }
    destruct (outcome (load_image w path)) as [image | e].
    + destruct H as [-> _].
      change (ENewClient :: ?l) with ([ENewClient] ++ l).
      rewrite !opens_app, opens_sections, Hopen. cbn [opens].
      now rewrite app_nil_r.
    + destruct H as [_ ->]. cbn [fst].
      change (ENewClient :: ?l) with ([ENewClient] ++ l).
      now rewrite !opens_app, Hopen.
  - intros e He. rewrite He in H. now destruct H.
  - intros image Himage.
    assert (forall out res,
               runs (run_sections float_str w image all_categories) out res ->
               annotate float_str w path t
               = (t ++ ENewClient :: written (load_image w path) ++ out, res)
               /\ calls (fst (annotate float_str w path t))
                  = calls t ++ calls out) as Hrun.
    { intros out res Hout.
      rewrite (annotate_from_payload float_str w path _ _ _ Himage Hout t).
      cbn [fst]. split; [reflexivity | ].
      change (ENewClient :: ?l) with ([ENewClient] ++ l).
      rewrite !calls_app, calls_load_image. reflexivity. }
    split; [ | split].
    + intros Hall.
      destruct (Hrun _ _ (run_sections_all_ok float_str w image
                            all_categories (fun c _ => Hall c)))
        as [Hann Hcalls].
      split; [exact Hann | ]. now rewrite Hcalls, calls_sections.
    + intros pre c post e Hcs Hpre Hc.
      pose proof (run_sections_first_failure float_str w image pre c post e
                    Hpre Hc) as Hstop.
      rewrite <- Hcs in Hstop. destruct (Hrun _ _ Hstop) as [Hann Hcalls].
      split; [exact Hann | ]. now rewrite Hcalls, calls_sections.
    + destruct (sections_ok_or_first float_str w image all_categories)
        as [Hall | Hfirst].
      * left. intros c. apply Hall, In_all_categories.
      * right. exact Hfirst.
Qed.

(** A quiet run goes through all six sections; a run where the web
    request fails stops there. *)
Lemma annotate_sequential_witness :
  calls (fst (annotate sample_float_str quiet_world "cat.png" []))
  = map (fun c => (c, ImageContent [x00; x01]%byte))
      [Labels; Web; Faces; Logos; Text; Objects]
  /\ annotate sample_float_str web_down_world "cat.png" []
     = ([ENewClient; EOpen "cat.png"]
          ++ flat_map
               (section_events sample_float_str web_down_world
                  (ImageContent [x00; x01]%byte))
               [Labels; Web],
        Raise (ClientError "unavailable")).
Proof.
  split.
  - destruct (annotate_sequential sample_float_str quiet_world "cat.png" [])
      as (_ & _ & _ & Hsections).
    destruct (Hsections (ImageContent [x00; x01]%byte) eq_refl)
      as (Hall & _ & _).
    apply Hall. intros c. now destruct c.
  - destruct (annotate_sequential sample_float_str web_down_world "cat.png"
                []) as (_ & _ & _ & Hsections).
    destruct (Hsections (ImageContent [x00; x01]%byte) eq_refl)
      as (_ & Hstop & _).
    apply (Hstop [Labels] Web [Faces; Logos; Text; Objects]
             (ClientError "unavailable") eq_refl).
    + intros c' [<- | []]. reflexivity.
    + reflexivity.
Defined.

(** C4 as stated fails: when the logo answer carries an error message,
    the service is called four times, not six; the text and object
    requests are never made. *)
Lemma annotate_sequential_counterexample :
  map fst
    (calls (fst (annotate sample_float_str logo_error_world "cat.png" [])))
  = [Labels; Web; Faces; Logos]
  /\ snd (annotate sample_float_str logo_error_world "cat.png" [])
     = Raise (Exception (error_text "quota")).
Proof. split; reflexivity. Qed.
